(** * content-router: the dispatch engine, embedded in Rocq

    A shallow embedding of the Go packages [buffer], [context], [manage]
    and [router] of aomirun/content-router, and the properties of the
    dispatch engine proved about it.

    Conventions.
    - Go pointers are locations in a heap; an interface value holding a
      pointer is an [option loc], [None] being the nil interface.
    - A Go function that touches the heap is a state-passing function on
      [World]; a run-time panic is the result [None].
    - A Go map is a reference to a map object: a location in a heap of
      map objects, each the list of its entries.  Keys are compared as
      the run time compares interface values.
    - A [[]byte] is the list of its elements: capacity is an allocation
      detail no property below observes. *)

From Stdlib Require Import ZArith List Lia.
From Stdlib Require Import Strings.Byte.
From stdpp Require Import base option list gmap strings fin_maps.

Local Open Scope Z_scope.

(** ** Bytes and Go strings *)

#[global] Instance byte_eq_dec : EqDecision byte := Byte.byte_eq_dec.

(** [[]byte(s)] for a Go string [s]. *)
Definition bytes_of (s : string) : list byte := String.list_byte_of_string s.

(** ** Heap locations *)

Definition loc := positive.

(** [new(T)]: an address not yet in use. *)
Definition alloc {V} (h : gmap loc V) : loc := fresh (dom h).

(** ** Package buffer: bufferImpl *)

Module buffer.

Record bufferImpl := { data : list byte }.

(** A method with a pointer receiver reads and updates the struct it
    points to: [None] when it panics. *)
Definition method (A : Type) := bufferImpl -> option (A * bufferImpl).

(** The slice expression [s[:n]] on a slice whose elements are [s]:
    the run time rejects a negative bound; a bound above the length
    re-slices into spare capacity and is never reached by the callers
    below, which all guard it. *)
Definition slice_to (s : list byte) (n : Z) : option (list byte) :=
  if (0 <=? n) && (n <=? Z.of_nat (length s))
  then Some (take (Z.to_nat n) s) else None.

Definition Get (b : bufferImpl) : list byte := data b.

Definition Len (b : bufferImpl) : Z := Z.of_nat (length (data b)).

Definition Write (p : list byte) : method Z :=
  fun b => Some (Z.of_nat (length p), {| data := data b ++ p |}).

Definition WriteString (s : string) : method Z :=
  fun b => Some (Z.of_nat (length (bytes_of s)),
                 {| data := data b ++ bytes_of s |}).

Definition Reset : method unit :=
  fun b => match slice_to (data b) 0 with
           | Some d => Some (tt, {| data := d |})
           | None => None
           end.

Definition Truncate (n : Z) : method unit :=
  fun b =>
    if n <? Z.of_nat (length (data b)) then
      match slice_to (data b) n with
      | Some d => Some (tt, {| data := d |})
      | None => None
      end
    else Some (tt, b).

Definition Clone (b : bufferImpl) : bufferImpl := {| data := data b |}.

(** [NewBuffer]: [make([]byte, 0, 1024)]. *)
Definition NewBuffer : bufferImpl := {| data := [] |}.

End buffer.

(** ** Dynamic values

    The value store is a [map[interface{}]interface{}]: its keys and
    its values are interface values, here of the dynamic types the typed
    getters tell apart.  [VNil] is the nil interface; a [time.Time] is
    given by a number that stands for its struct value, 0 for the zero
    [Time]; [VBytes], a [[]byte], is of the dynamic types that cannot be
    hashed (slices, maps, functions). *)

(** A [float64], by its IEEE 754 bits. *)
Definition float64 := Z.

Definition isNaN (f : float64) : bool :=
  (Z.land (Z.shiftr f 52) 2047 =? 2047)
  && negb (Z.land f 4503599627370495 =? 0).

Definition isZero (f : float64) : bool :=
  Z.land f 9223372036854775807 =? 0.

(** [a == b] on [float64]: a NaN equals nothing, itself included, and
    the two zeros are equal. *)
Definition float_eq (a b : float64) : bool :=
  negb (isNaN a) && negb (isNaN b) && ((a =? b) || (isZero a && isZero b)).

(** [math.NaN()] *)
Definition NaN : float64 := 9221120237041090561.

Inductive any :=
| VNil
| VString (s : string)
| VInt (i : Z)
| VInt64 (i : Z)
| VBool (b : bool)
| VFloat64 (f : float64)
| VTime (t : Z)
| VBytes (bs : list byte).

(** A key of the value store is any interface value. *)
Definition key := any.

(** Whether the run time can hash a key; a map operation with a key it
    cannot hash panics. *)
Definition hashable (k : key) : bool :=
  match k with
  | VBytes _ => false
  | _ => true
  end.

(** [a == b] on hashable interface values: the same dynamic type and
    equal values. *)
Definition key_eq (a b : key) : bool :=
  match a, b with
  | VNil, VNil => true
  | VString x, VString y => bool_decide (x = y)
  | VInt x, VInt y => x =? y
  | VInt64 x, VInt64 y => x =? y
  | VBool x, VBool y => Bool.eqb x y
  | VFloat64 x, VFloat64 y => float_eq x y
  | VTime x, VTime y => x =? y
  | _, _ => false
  end.

(** ** Go maps

    A map object is the list of its entries; the order of the list is
    the order [range] happens to visit them in.  In a map the run time
    built, no two entries have equal keys. *)

Module gomap.

(** [m[k]], the nil interface when no entry has the key. *)
Definition get (m : list (key * any)) (k : key) : any :=
  match List.find (fun e => key_eq e.1 k) m with
  | Some e => e.2
  | None => VNil
  end.

(** [m[k] = v]: the entry with that key is overwritten, key included,
    or a new entry is added. *)
Definition set (m : list (key * any)) (k : key) (v : any) : list (key * any) :=
  if existsb (fun e => key_eq e.1 k) m
  then List.map (fun e => if key_eq e.1 k then (k, v) else e) m
  else m ++ [(k, v)].

(** [delete(m, k)] *)
Definition delete (m : list (key * any)) (k : key) : list (key * any) :=
  List.filter (fun e => negb (key_eq e.1 k)) m.

End gomap.

(** The standard library's [context.Context] values a caller can pass
    as parent. *)
Inductive stdContext := Background | Derived (id : positive).

(** An [error] value: [None] is nil. *)
Definition error := option string.

(** ** The world: heaps, the package-level context pool, user effects *)

Record contextImpl := {
  Context : option stdContext;
  buffer : option loc;
  (** the map object [values] refers to.  The package always makes
      one; at an address where no map is allocated the operations do
      what they do on the nil map *)
  values : loc
}.

(** What a [sync.Pool]'s [New] field can hold in this repository. *)
Inductive factory := NewBufferFn | NewContextImplFn.

Record syncPool := {
  items : list loc;
  New : option factory
}.

Record World := {
  buffers : gmap loc buffer.bufferImpl;
  contexts : gmap loc contextImpl;
  (** the map objects of the value stores *)
  maps : gmap loc (list (key * any));
  (** [var contextPool] of package context *)
  contextPool : syncPool;
  (** the item each coming [sync.Pool.Get] picks: [Some i] the [i]-th
      pooled item, [None] (or an index out of range, or an exhausted
      tape) none of them *)
  picks : list (option nat);
  (** what handlers, matchers and middleware written by the caller
      record, as the tests do with [callOrder] *)
  callOrder : list string
}.

Definition set_buffers (f : gmap loc buffer.bufferImpl -> gmap loc buffer.bufferImpl)
    (w : World) : World :=
  {| buffers := f (buffers w); contexts := contexts w; maps := maps w;
     contextPool := contextPool w; picks := picks w; callOrder := callOrder w |}.

Definition set_contexts (f : gmap loc contextImpl -> gmap loc contextImpl)
    (w : World) : World :=
  {| buffers := buffers w; contexts := f (contexts w); maps := maps w;
     contextPool := contextPool w; picks := picks w; callOrder := callOrder w |}.

Definition set_maps (f : gmap loc (list (key * any)) -> gmap loc (list (key * any)))
    (w : World) : World :=
  {| buffers := buffers w; contexts := contexts w; maps := f (maps w);
     contextPool := contextPool w; picks := picks w; callOrder := callOrder w |}.

Definition set_contextPool (p : syncPool) (w : World) : World :=
  {| buffers := buffers w; contexts := contexts w; maps := maps w;
     contextPool := p; picks := picks w; callOrder := callOrder w |}.

Definition set_picks (l : list (option nat)) (w : World) : World :=
  {| buffers := buffers w; contexts := contexts w; maps := maps w;
     contextPool := contextPool w; picks := l; callOrder := callOrder w |}.

Definition set_callOrder (l : list string) (w : World) : World :=
  {| buffers := buffers w; contexts := contexts w; maps := maps w;
     contextPool := contextPool w; picks := picks w; callOrder := l |}.

(** ** The monad of Go code: state and panic *)

Definition M (A : Type) := World -> option (A * World).

Definition ret {A} (a : A) : M A := fun w => Some (a, w).

Definition bind {A B} (m : M A) (k : A -> M B) : M B :=
  fun w => match m w with
           | Some (a, w') => k a w'
           | None => None
           end.

Definition panic {A} : M A := fun _ => None.

Notation "'do' x <- m ; k" := (bind m (fun x => k))
  (at level 10, x name, m at level 100, k at level 200).
Notation "'exec' m ; k" := (bind m (fun _ => k))
  (at level 10, m at level 100, k at level 200).

Definition gets {A} (f : World -> A) : M A := fun w => Some (f w, w).
Definition modify (f : World -> World) : M unit := fun w => Some (tt, f w).

(** Calling a method of [*bufferImpl] through a [Buffer] interface value:
    a nil interface panics. *)
Definition call_buffer {A} (b : option loc) (m : buffer.method A) : M A :=
  fun w =>
    match b with
    | None => None
    | Some l =>
        match buffers w !! l with
        | None => None
        | Some bi =>
            match m bi with
            | None => None
            | Some (a, bi') => Some (a, set_buffers (insert l bi') w)
            end
        end
    end.

(** The same for a method that only reads. *)
Definition read_buffer {A} (b : option loc) (f : buffer.bufferImpl -> A) : M A :=
  fun w =>
    match b with
    | None => None
    | Some l =>
        match buffers w !! l with
        | None => None
        | Some bi => Some (f bi, w)
        end
    end.

(** [buffer.NewBuffer()] as an allocation. *)
Definition NewBuffer : M loc :=
  fun w => let l := alloc (buffers w) in
           Some (l, set_buffers (insert l buffer.NewBuffer) w).

(** The entries of the map at [l]: none when it is the nil map. *)
Definition entries (w : World) (l : loc) : list (key * any) :=
  default [] (maps w !! l).

(** [make(map[interface{}]interface{})] *)
Definition make_map : M loc :=
  fun w => let l := alloc (maps w) in
           Some (l, set_maps (insert l []) w).

(** [m[k] = v] on the map at [l]: a panic when the key cannot be
    hashed and when the map is nil. *)
Definition mapassign (l : loc) (k : key) (v : any) : M unit :=
  fun w => match maps w !! l with
           | Some m => if hashable k
                       then Some (tt, set_maps (insert l (gomap.set m k v)) w)
                       else None
           | None => None
           end.

(** [m[k]] on the map at [l]: a panic when the key cannot be hashed,
    also on the nil map. *)
Definition mapaccess (l : loc) (k : key) : M any :=
  fun w => if hashable k then Some (gomap.get (entries w l) k, w) else None.

(** [delete(m, k)] on the map at [l]: a panic when the key cannot be
    hashed, also on the nil map. *)
Definition mapdelete (l : loc) (k : key) : M unit :=
  fun w => if hashable k
           then Some (tt, set_maps (alter (fun m => gomap.delete m k) l) w)
           else None.

(** The [New] function of [contextPool]. *)
Definition newContextImpl : M loc :=
  do values <- make_map;
  fun w => let l := alloc (contexts w) in
           Some (l, set_contexts
                      (insert l {| Context := None; buffer := None;
                                   values := values |}) w).

Definition run_factory (f : factory) : M loc :=
  match f with
  | NewBufferFn => NewBuffer
  | NewContextImplFn => newContextImpl
  end.

(** ** sync.Pool *)

Module sync.

Definition next_pick : M (option nat) :=
  fun w => match picks w with
           | [] => Some (None, w)
           | c :: rest => Some (c, set_picks rest w)
           end.

(** [Put(x)]: a nil [x] is dropped, anything else joins the pool. *)
Definition Put (x : option loc) (p : syncPool) : syncPool :=
  match x with
  | None => p
  | Some l => {| items := l :: items p; New := New p |}
  end.

(** [Get()]: removes and returns an arbitrary pooled item, or ignores
    the pool and returns the result of [New] (nil when [New] is nil). *)
Definition Get (p : syncPool) : M (option loc * syncPool) :=
  do c <- next_pick;
  match c with
  | Some i =>
      match items p !! i with
      | Some l => ret (Some l, {| items := delete i (items p); New := New p |})
      | None =>
          match New p with
          | Some f => do l <- run_factory f; ret (Some l, p)
          | None => ret (None, p)
          end
      end
  | None =>
      match New p with
      | Some f => do l <- run_factory f; ret (Some l, p)
      | None => ret (None, p)
      end
  end.

End sync.

(** ** Package buffer: the object pool *)

Module pool.

Record poolImpl := { pool : syncPool }.

(** [Acquire]: a nil from the pool is returned as the zero value. *)
Definition Acquire (p : poolImpl) : M (option loc * poolImpl) :=
  do r <- sync.Get (pool p);
  let '(obj, sp) := r in
  match obj with
  | None => ret (None, {| pool := sp |})
  | Some l => ret (Some l, {| pool := sp |})
  end.

(** [Release]: the type assertion to [Mutable] succeeds on every
    non-nil [Buffer] and fails on the nil interface. *)
Definition Release (p : poolImpl) (obj : option loc) : M poolImpl :=
  match obj with
  | Some l =>
      exec call_buffer (Some l) buffer.Reset;
      ret {| pool := sync.Put obj (pool p) |}
  | None => ret {| pool := sync.Put obj (pool p) |}
  end.

Definition Size (p : poolImpl) : Z := 0.

Definition NewPool : poolImpl :=
  {| pool := {| items := []; New := Some NewBufferFn |} |}.

End pool.

(** ** Package manage *)

Module manage.

Record bufferManagerImpl := { pool : pool.poolImpl }.

Definition NewBufferManager : bufferManagerImpl := {| pool := pool.NewPool |}.

Definition Acquire (bm : bufferManagerImpl) : M (option loc * bufferManagerImpl) :=
  do r <- pool.Acquire (pool bm);
  ret (r.1, {| pool := r.2 |}).

Definition Release (bm : bufferManagerImpl) (buf : option loc) : M bufferManagerImpl :=
  exec call_buffer buf buffer.Reset;
  do p <- pool.Release (pool bm) buf;
  ret {| pool := p |}.

End manage.

(** ** Package context *)

Module router_context.

(** Reading and updating the struct a [*contextImpl] points to. *)
Definition load (c : loc) : M contextImpl :=
  fun w => match contexts w !! c with
           | Some ci => Some (ci, w)
           | None => None
           end.

Definition store (c : loc) (ci : contextImpl) : M unit :=
  modify (set_contexts (insert c ci)).

(** [for k := range m { delete(m, k) }]: the keys visited are those
    the map holds when the loop starts; deleting a key a second time
    changes nothing. *)
Definition clear (m : list (key * any)) : list (key * any) :=
  foldl (fun acc e => gomap.delete acc e.1) m m.

(** [for k, v := range m { values[k] = v }] into a fresh map; the keys
    come out of a map, so they can be hashed. *)
Definition copy (m : list (key * any)) : list (key * any) :=
  foldl (fun acc e => gomap.set acc e.1 e.2) [] m.

(** The first loop, run on the map object at [l]; the nil map has
    nothing to visit. *)
Definition range_delete (l : loc) : M unit :=
  modify (set_maps (alter clear l)).

Definition contextPool_Get : M (option loc) :=
  do p <- gets contextPool;
  do r <- sync.Get p;
  exec modify (set_contextPool r.2);
  ret r.1.

Definition contextPool_Put (x : option loc) : M unit :=
  do p <- gets contextPool;
  modify (set_contextPool (sync.Put x p)).

Definition NewContext (parent : option stdContext) (buf : option loc) : M loc :=
  let parent := match parent with None => Background | Some p => p end in
  do got <- contextPool_Get;
  match got with
  | None => panic
  | Some ctx =>
      do ci <- load ctx;
      exec store ctx {| Context := Some parent; buffer := buf;
                        values := values ci |};
      exec range_delete (values ci);
      ret ctx
  end.

Definition Reset (c : loc) : M unit :=
  do ci <- load c;
  exec range_delete (values ci);
  exec store c {| Context := None; buffer := None; values := values ci |};
  contextPool_Put (Some c).

(** [Set] (a reserved word here, hence the underscore) *)
Definition Set_ (c : loc) (k : key) (v : any) : M unit :=
  do ci <- load c; mapassign (values ci) k v.

Definition Get (c : loc) (k : key) : M any :=
  do ci <- load c; mapaccess (values ci) k.

Definition GetString (c : loc) (k : key) : M (string * bool) :=
  do val <- Get c k;
  match val with
  | VString str => ret (str, true)
  | _ => ret (String.EmptyString, false)
  end.

Definition GetInt (c : loc) (k : key) : M (Z * bool) :=
  do val <- Get c k;
  match val with
  | VInt i => ret (i, true)
  | _ => ret (0, false)
  end.

Definition GetInt64 (c : loc) (k : key) : M (Z * bool) :=
  do val <- Get c k;
  match val with
  | VInt64 i => ret (i, true)
  | _ => ret (0, false)
  end.

Definition GetBool (c : loc) (k : key) : M (bool * bool) :=
  do val <- Get c k;
  match val with
  | VBool b => ret (b, true)
  | _ => ret (false, false)
  end.

Definition GetFloat64 (c : loc) (k : key) : M (float64 * bool) :=
  do val <- Get c k;
  match val with
  | VFloat64 f => ret (f, true)
  | _ => ret (0, false)
  end.

Definition GetBytes (c : loc) (k : key) : M (list byte * bool) :=
  do val <- Get c k;
  match val with
  | VBytes b => ret (b, true)
  | _ => ret ([], false)
  end.

Definition GetTime (c : loc) (k : key) : M (Z * bool) :=
  do val <- Get c k;
  match val with
  | VTime t => ret (t, true)
  | _ => ret (0, false)
  end.

Definition Delete (c : loc) (k : key) : M unit :=
  do ci <- load c; mapdelete (values ci) k.


Definition Buffer (c : loc) : M (option loc) :=
  do ci <- load c; ret (buffer ci).

Definition Fork (c : loc) : M loc :=
  do ci <- load c;
  do src <- gets (fun w => entries w (values ci));
  do values <- make_map;
  exec modify (set_maps (insert values (copy src)));
  do l <- gets (fun w => alloc (contexts w));
  exec store l {| Context := Context ci; buffer := buffer ci; values := values |};
  ret l.


End router_context.

(** ** The functions of package bytes the matchers use *)

Module bytes.

Definition HasPrefix (s prefix : list byte) : bool :=
  (length prefix <=? length s)%nat
  && bool_decide (take (length prefix) s = prefix).

Definition HasSuffix (s suffix : list byte) : bool :=
  (length suffix <=? length s)%nat
  && bool_decide (drop (length s - length suffix) s = suffix).

(** [Contains(b, sub)]: [sub] occurs at some offset of [b]. *)
Fixpoint Contains (b sub : list byte) : bool :=
  HasPrefix b sub ||
  match b with
  | [] => false
  | _ :: rest => Contains rest sub
  end.

End bytes.

(** ** Package router *)

Module router.

Definition HandlerFunc := loc -> M error.
Definition MiddlewareFunc := loc -> HandlerFunc -> M error.
Definition Matcher := loc -> M bool.

Record routeEntry := {
  matcher : Matcher;
  handler : HandlerFunc
}.

(** The function values [buildHandlerChain] makes, by what they capture:
    [baseHandler] captures the router [r] and reads [r.routes] when it
    is called; each wrapper captures [middleware] and [next]. *)
Inductive chain :=
| baseHandler
| wrapper (middleware : MiddlewareFunc) (next : chain).

Record routerImpl := {
  bufferManager : manage.bufferManagerImpl;
  routes : list routeEntry;
  middlewares : list MiddlewareFunc;
  handlerChain : option chain;
  dirty : bool
}.

Definition NewRouter : routerImpl :=
  {| bufferManager := manage.NewBufferManager;
     routes := []; middlewares := [];
     handlerChain := None; dirty := false |}.

(** [ctx.Buffer().Get()] *)
Definition payload (ctx : loc) : M (list byte) :=
  do b <- router_context.Buffer ctx;
  read_buffer b buffer.Get.

Definition PrefixMatcher (prefix : string) : Matcher :=
  let prefixBytes := bytes_of prefix in
  fun ctx =>
    do data <- payload ctx;
    ret ((length prefixBytes <=? length data)%nat && bytes.HasPrefix data prefixBytes).

Definition SuffixMatcher (suffix : string) : Matcher :=
  let suffixBytes := bytes_of suffix in
  fun ctx =>
    do data <- payload ctx;
    ret ((length suffixBytes <=? length data)%nat && bytes.HasSuffix data suffixBytes).

Definition ContainsMatcher (substring : string) : Matcher :=
  let substringBytes := bytes_of substring in
  fun ctx =>
    do data <- payload ctx;
    ret ((length substringBytes <=? length data)%nat
         && bytes.Contains data substringBytes).

(** The body of [baseHandler]: the loop over [r.routes]. *)
Fixpoint scan (entries : list routeEntry) (ctx : loc) : M error :=
  match entries with
  | [] => ret None
  | entry :: rest =>
      do ok <- matcher entry ctx;
      if ok then handler entry ctx else scan rest ctx
  end.

(** Calling a function value of the chain on router [r]. *)
Fixpoint call (r : routerImpl) (h : chain) : HandlerFunc :=
  match h with
  | baseHandler => scan (routes r)
  | wrapper middleware next => fun ctx => middleware ctx (call r next)
  end.

(** The loop [for i := len(r.middlewares) - 1; i >= 0; i--], entered
    with [i + 1 = n]. *)
Fixpoint wrap_from (mws : list MiddlewareFunc) (n : nat) (h : chain) : chain :=
  match n with
  | O => h
  | S i =>
      match mws !! i with
      | Some middleware => wrap_from mws i (wrapper middleware h)
      | None => h
      end
  end.

Definition buildHandlerChain (r : routerImpl) : chain * routerImpl :=
  match negb (dirty r), handlerChain r with
  | true, Some cached => (cached, r)
  | _, _ =>
      if (length (middlewares r) =? 0)%nat then
        (baseHandler,
         {| bufferManager := bufferManager r; routes := routes r;
            middlewares := middlewares r;
            handlerChain := Some baseHandler; dirty := false |})
      else
        let h := wrap_from (middlewares r) (length (middlewares r)) baseHandler in
        (h,
         {| bufferManager := bufferManager r; routes := routes r;
            middlewares := middlewares r;
            handlerChain := Some h; dirty := false |})
  end.

Definition Route (r : routerImpl) (ctx : option stdContext) (buf : option loc)
    : M ((option loc * error) * routerImpl) :=
  do routerCtx <- router_context.NewContext ctx buf;
  let '(h, r') := buildHandlerChain r in
  do err <- call r' h routerCtx;
  exec router_context.Reset routerCtx;
  ret ((buf, err), r').

Definition Register (r : routerImpl) (m : Matcher) (h : HandlerFunc) : routerImpl :=
  {| bufferManager := bufferManager r;
     routes := routes r ++ [{| matcher := m; handler := h |}];
     middlewares := middlewares r;
     handlerChain := handlerChain r; dirty := true |}.

Definition Match (r : routerImpl) (pattern : string) (h : HandlerFunc) : routerImpl :=
  let patternBytes := bytes_of pattern in
  let m : Matcher := fun ctx =>
    do data <- payload ctx;
    ret ((length patternBytes <=? length data)%nat
         && bytes.HasPrefix data patternBytes) in
  Register r m h.

Definition Use (r : routerImpl) (middleware : list MiddlewareFunc) : routerImpl :=
  {| bufferManager := bufferManager r; routes := routes r;
     middlewares := middlewares r ++ middleware;
     handlerChain := handlerChain r; dirty := true |}.

End router.

(** ** Package router: pipelineImpl *)

Module pipeline.

Record pipelineImpl := { middlewares : list router.MiddlewareFunc }.

(** The pipeline [Router.Pipeline] creates. *)
Definition new : pipelineImpl := {| middlewares := [] |}.

Definition Use (p : pipelineImpl) (middleware : list router.MiddlewareFunc)
    : pipelineImpl :=
  {| middlewares := middlewares p ++ middleware |}.

(** The terminal handler of a pipeline. *)
Definition baseHandler : router.HandlerFunc := fun _ => ret None.

(** The loop [for i := len(p.middlewares) - 1; i >= 0; i--], entered
    with [i + 1 = n]; each round makes a function value that captures
    [middleware] and [next]. *)
Fixpoint wrap_from (mws : list router.MiddlewareFunc) (n : nat)
    (handler : router.HandlerFunc) : router.HandlerFunc :=
  match n with
  | O => handler
  | S i =>
      match mws !! i with
      | Some middleware =>
          let next := handler in
          wrap_from mws i (fun ctx => middleware ctx next)
      | None => handler
      end
  end.

Definition Handle (p : pipelineImpl) (ctx : loc) : M error :=
  if (length (middlewares p) =? 0)%nat then baseHandler ctx
  else wrap_from (middlewares p) (length (middlewares p)) baseHandler ctx.

End pipeline.

(** ** Package buffer over backing arrays

    The buffers above are the lists of their elements.  [Slice], [Cap]
    and the storage a [Clone] does not share need the slice itself: a
    window on a backing array.  Here [bufferImpl] is modelled once more
    with its [data] field as such a window. *)

Module slices.

(** A slice value: the array it points into, where it begins there, its
    length and its capacity. *)
Record slice := { array : loc; offset : nat; len : nat; cap : nat }.

(** The arrays, and the [bufferImpl] structs with their [data] field. *)
Record Mem := {
  arrays : gmap loc (list byte);
  structs : gmap loc slice
}.

Definition contents (m : Mem) (a : loc) : list byte :=
  default [] (arrays m !! a).

(** The elements [s[0], ..., s[len(s)-1]]. *)
Definition elems (m : Mem) (s : slice) : list byte :=
  take (len s) (drop (offset s) (contents m (array s))).

(** All the bytes it can reach: [s[0:cap(s)]]. *)
Definition window (m : Mem) (s : slice) : list byte :=
  take (cap s) (drop (offset s) (contents m (array s))).

(** [s[lo:hi]]: the bounds are checked against the capacity. *)
Definition reslice (s : slice) (lo hi : Z) : option slice :=
  if (0 <=? lo) && (lo <=? hi) && (hi <=? Z.of_nat (cap s))
  then Some {| array := array s;
               offset := offset s + Z.to_nat lo;
               len := Z.to_nat hi - Z.to_nat lo;
               cap := cap s - Z.to_nat lo |}
  else None.

(** [make([]byte, n, c)] *)
Definition make (n c : nat) (m : Mem) : slice * Mem :=
  let a := alloc (arrays m) in
  ({| array := a; offset := 0; len := n; cap := c |},
   {| arrays := <[a := replicate c x00]> (arrays m); structs := structs m |}).

(** [copy(dst, src)] *)
Definition copy (dst src : slice) (m : Mem) : Mem :=
  let k := Nat.min (len dst) (len src) in
  let darr := contents m (array dst) in
  {| arrays := <[array dst := take (offset dst) darr ++ take k (elems m src)
                              ++ drop (offset dst + k) darr]> (arrays m);
     structs := structs m |}.

(** The methods that change a buffer. *)
Inductive buf_op :=
| BWrite (p : list byte)
| BTruncate (n : Z)
| BReset.

Section growth.

(** The capacity the run time picks when [append] has to reallocate,
    from the old capacity and the length needed; it is at least the
    length needed. *)
Variable newcap : nat -> nat -> nat.

(** [append(s, p...)]: in place when the capacity allows, into a new
    array otherwise. *)
Definition append (s : slice) (p : list byte) (m : Mem) : slice * Mem :=
  let n := (len s + length p)%nat in
  if (n <=? cap s)%nat then
    let arr := contents m (array s) in
    ({| array := array s; offset := offset s; len := n; cap := cap s |},
     {| arrays := <[array s := take (offset s + len s) arr ++ p
                               ++ drop (offset s + n) arr]> (arrays m);
        structs := structs m |})
  else
    let c := Nat.max n (newcap (cap s) n) in
    let a := alloc (arrays m) in
    ({| array := a; offset := 0; len := n; cap := c |},
     {| arrays := <[a := elems m s ++ p ++ replicate (c - n) x00]> (arrays m);
        structs := structs m |}).

Definition set_data (b : loc) (s : slice) (m : Mem) : Mem :=
  {| arrays := arrays m; structs := <[b := s]> (structs m) |}.

Definition Get (b : loc) (m : Mem) : option (list byte) :=
  s ← structs m !! b; Some (elems m s).

Definition Len (b : loc) (m : Mem) : option Z :=
  s ← structs m !! b; Some (Z.of_nat (len s)).

Definition Cap (b : loc) (m : Mem) : option Z :=
  s ← structs m !! b; Some (Z.of_nat (cap s)).

Definition Write (b : loc) (p : list byte) (m : Mem) : option (Z * Mem) :=
  s ← structs m !! b;
  let '(s', m') := append s p m in
  Some (Z.of_nat (length p), set_data b s' m').

Definition Reset (b : loc) (m : Mem) : option Mem :=
  s ← structs m !! b;
  s' ← reslice s 0 0;
  Some (set_data b s' m).

Definition Truncate (b : loc) (n : Z) (m : Mem) : option Mem :=
  s ← structs m !! b;
  if n <? Z.of_nat (len s) then
    s' ← reslice s 0 n; Some (set_data b s' m)
  else Some m.

Definition Slice (b : loc) (start end_ : Z) (m : Mem) : option (loc * Mem) :=
  s ← structs m !! b;
  s' ← reslice s start end_;
  let b' := alloc (structs m) in
  Some (b', set_data b' s' m).

Definition Clone (b : loc) (m : Mem) : option (loc * Mem) :=
  s ← structs m !! b;
  let '(clone, m1) := make (len s) (len s) m in
  let m2 := copy clone s m1 in
  let b' := alloc (structs m2) in
  Some (b', set_data b' clone m2).

Definition NewBuffer (m : Mem) : loc * Mem :=
  let '(data, m1) := make 0 1024 m in
  let b := alloc (structs m1) in
  (b, set_data b data m1).

(** A run of calls that change one buffer. *)
Definition run_op (b : loc) (op : buf_op) (m : Mem) : option Mem :=
  match op with
  | BWrite p => snd <$> Write b p m
  | BTruncate n => Truncate b n m
  | BReset => Reset b m
  end.

Fixpoint run_ops (b : loc) (ops : list buf_op) (m : Mem) : option Mem :=
  match ops with
  | [] => Some m
  | op :: rest => m' ← run_op b op m; run_ops b rest m'
  end.

End growth.

(** The calls of a run that do not panic: no [Truncate] to a negative
    length. *)
Definition valid_ops (ops : list buf_op) : Prop :=
  Forall (fun op => match op with BTruncate n => 0 <= n | _ => True end) ops.

(** Every struct's slice lies within an allocated array. *)
Definition wf (m : Mem) : Prop :=
  forall b s, structs m !! b = Some s ->
    exists arr, arrays m !! array s = Some arr /\
                (offset s + cap s <= length arr)%nat /\
                (len s <= cap s)%nat.

(** A growth policy for the examples: double, or what is needed. *)
Definition double (c n : nat) : nat := Nat.max (2 * c) n.

(** A buffer holding "abc" in an array of eight bytes. *)
Definition mem_abc : Mem :=
  {| arrays := {[ 1%positive := bytes_of "abc" ++ replicate 5 x00 ]};
     structs := {[ 1%positive := {| array := 1%positive; offset := 0;
                                    len := 3; cap := 8 |} ]} |}.

End slices.

(** ** Vocabulary of the properties *)

(** The world a program starts in: empty heaps, [contextPool] as its
    declaration initialises it. *)
Definition World0 : World :=
  {| buffers := ∅; contexts := ∅; maps := ∅;
     contextPool := {| items := []; New := Some NewContextImplFn |};
     picks := []; callOrder := [] |}.

(** Pointers are never dangling: what [contextPool] holds is allocated,
    and its [New] is the one of its declaration. *)
Definition world_ok (w : World) : Prop :=
  New (contextPool w) = Some NewContextImplFn /\
  forall l, l ∈ items (contextPool w) -> is_Some (contexts w !! l).

(** Every buffer idle in the pool is allocated and empty. *)
Definition idle_empty (p : pool.poolImpl) (w : World) : Prop :=
  forall l, l ∈ items (pool.pool p) ->
    exists bi, buffers w !! l = Some bi /\ buffer.data bi = [].

(** What [Truncate(n)] is said to do to a buffer [b]. *)
Definition Truncate_contract (b : buffer.bufferImpl) (n : Z) : Prop :=
  (n >= buffer.Len b -> buffer.Truncate n b = Some (tt, b)) /\
  (n < buffer.Len b ->
     exists b', buffer.Truncate n b = Some (tt, b') /\
       buffer.Len b' = n /\
       forall i : nat, (Z.of_nat i < n) ->
         buffer.data b' !! i = buffer.data b !! i).

(** A world holding one buffer with the given payload and one context
    around it, both at address 1. *)
Definition world_with (payload : list byte) : World :=
  {| buffers := {[ 1%positive := {| buffer.data := payload |} ]};
     contexts := {[ 1%positive := {| Context := Some Background;
                                     buffer := Some 1%positive;
                                     values := 1%positive |} ]};
     maps := {[ 1%positive := [] ]};
     contextPool := {| items := []; New := Some NewContextImplFn |};
     picks := []; callOrder := [] |}.

(** The verdict of a matcher on a payload. *)
Definition verdict (m : router.Matcher) (payload : list byte) : option bool :=
  fst <$> m 1%positive (world_with payload).

(** The matcher of the route registered last. *)
Definition last_matcher (r : router.routerImpl) : router.Matcher :=
  match last (router.routes r) with
  | Some e => router.matcher e
  | None => fun _ => panic
  end.

(** User code that records a call, as the tests do by appending to a
    slice. *)
Definition record (s : string) : M unit :=
  modify (fun w => set_callOrder (callOrder w ++ [s]) w).

Definition okHandler : router.HandlerFunc := fun _ => ret None.

(** A run of updates of one context's value store. *)
Inductive store_op :=
| OpSet (k : key) (v : any)
| OpDelete (k : key).

Definition apply_op (c : loc) (op : store_op) : M unit :=
  match op with
  | OpSet k v => router_context.Set_ c k v
  | OpDelete k => router_context.Delete c k
  end.

Fixpoint apply_ops (c : loc) (ops : list store_op) : M unit :=
  match ops with
  | [] => ret tt
  | op :: rest => exec apply_op c op; apply_ops c rest
  end.

(** Acquire, use, Release, Acquire on a buffer pool: the length of the
    released buffer once released, and of the buffer acquired next. *)
Definition buffer_reuse (p : pool.poolImpl) (payload : list byte) : M (Z * Z) :=
  do a <- pool.Acquire p;
  exec call_buffer a.1 (buffer.Write payload);
  do p' <- pool.Release a.2 a.1;
  do released <- read_buffer a.1 buffer.Len;
  do b <- pool.Acquire p';
  do again <- read_buffer b.1 buffer.Len;
  ret (released, again).

(** A context and the entries of its value store. *)
Definition snapshot (c : loc) : M (contextImpl * list (key * any)) :=
  do ci <- router_context.load c;
  do m <- gets (fun w => entries w (values ci));
  ret (ci, m).

(** The same on the context pool: the context as it is used, as [Reset]
    leaves it, and the context handed out next, each with the entries of
    its store. *)
Definition context_reuse (parent : option stdContext) (buf : option loc)
    (ops : list store_op) (parent' : option stdContext) (buf' : option loc)
    : M ((contextImpl * list (key * any)) * (contextImpl * list (key * any))
         * (contextImpl * list (key * any))) :=
  do c <- router_context.NewContext parent buf;
  exec apply_ops c ops;
  do used <- snapshot c;
  exec router_context.Reset c;
  do released <- snapshot c;
  do c' <- router_context.NewContext parent' buf';
  do again <- snapshot c';
  ret (used, released, again).

(** The keys equal to themselves; a NaN is not. *)
Definition reflexive (k : key) : bool := key_eq k k.

(** The entries a loop of deletes over the keys of a map leaves. *)
Definition survivors (m : list (key * any)) : list (key * any) :=
  List.filter (fun e => negb (reflexive e.1)) m.

(** A map as the run time builds them: its keys can be hashed and no
    two of its entries have equal keys. *)
Fixpoint map_ok (m : list (key * any)) : Prop :=
  match m with
  | [] => True
  | e :: rest =>
      hashable e.1 = true /\
      Forall (fun e' => key_eq e.1 e'.1 = false) rest /\
      map_ok rest
  end.

(** The keys of a run of updates can all be hashed. *)
Definition ops_hashable (ops : list store_op) : Prop :=
  Forall (fun op => match op with
                    | OpSet k _ => hashable k = true
                    | OpDelete k => hashable k = true
                    end) ops.

(** The contexts idle in [contextPool] are allocated with their maps,
    as those the pool's [New] makes are. *)
Definition pool_ready (w : World) : Prop :=
  forall l, l ∈ items (contextPool w) ->
    exists ci, contexts w !! l = Some ci /\ is_Some (maps w !! values ci).

(** Appending to the record of calls. *)
Definition logged (l : list string) (w : World) : World :=
  set_callOrder (callOrder w ++ l) w.

(** A middleware that records its name before and after calling [next],
    as [middleware1] and [middleware2] of the tests do. *)
Definition traced (name : string) : router.MiddlewareFunc :=
  fun ctx next =>
    exec record (name +:+ "-before");
    do err <- next ctx;
    exec record (name +:+ "-after");
    ret err.

(** A handler that records its name and returns [err]. *)
Definition tracedHandler (name : string) (err : error) : router.HandlerFunc :=
  fun _ => exec record name; ret err.

(** A matcher with a fixed answer, the tests' [mockMatcher]. *)
Definition mockMatcher (matchResult : bool) : router.Matcher :=
  fun _ => ret matchResult.

(** A matcher that records its name and answers [matchResult]. *)
Definition tracedMatcher (name : string) (matchResult : bool) : router.Matcher :=
  fun _ => exec record name; ret matchResult.

(** A middleware that refuses every payload without calling [next]. *)
Definition deny : router.MiddlewareFunc :=
  fun _ _ => ret (Some "denied").

(** Middleware nested around a handler, the first outermost. *)
Definition onion (mws : list router.MiddlewareFunc) (h : router.HandlerFunc)
    : router.HandlerFunc :=
  foldr (fun m next => fun ctx => m ctx next) h mws.

(** The matchers of [entries] are evaluated in order from world [w] and
    each returns false: the world they leave. *)
Fixpoint misses (entries : list router.routeEntry) (ctx : loc) (w : World)
    : option World :=
  match entries with
  | [] => Some w
  | e :: rest =>
      match router.matcher e ctx w with
      | Some (false, w') => misses rest ctx w'
      | _ => None
      end
  end.

(** The chain for a middleware list, first-registered outermost. *)
Definition chain_of (mws : list router.MiddlewareFunc) : router.chain :=
  foldr router.wrapper router.baseHandler mws.

(** A cached chain that is not marked dirty is the chain of the current
    middleware list. *)
Definition coherent (r : router.routerImpl) : Prop :=
  router.dirty r = false ->
  forall c, router.handlerChain r = Some c -> c = chain_of (router.middlewares r).

(** The router with its chain freshly built and cached. *)
Definition cleaned (r : router.routerImpl) : router.routerImpl :=
  {| router.bufferManager := router.bufferManager r;
     router.routes := router.routes r;
     router.middlewares := router.middlewares r;
     router.handlerChain := Some (chain_of (router.middlewares r));
     router.dirty := false |}.

(** The routers the public surface can produce. *)
Inductive reachable : router.routerImpl -> Prop :=
| reach_new : reachable router.NewRouter
| reach_Register r m h : reachable r -> reachable (router.Register r m h)
| reach_Match r pattern h : reachable r -> reachable (router.Match r pattern h)
| reach_Use r mws : reachable r -> reachable (router.Use r mws)
| reach_Route r : reachable r -> reachable (router.buildHandlerChain r).2.

(** What [Route] does once it holds the chain [h]. *)
Definition dispatch (r : router.routerImpl) (h : router.chain)
    (parent : option stdContext) (buf : option loc) : M (option loc * error) :=
  do routerCtx <- router_context.NewContext parent buf;
  do err <- router.call r h routerCtx;
  exec router_context.Reset routerCtx;
  ret (buf, err).


(** Routers and worlds of the tests. *)
Definition three_routes : router.routerImpl :=
  router.Register
    (router.Register
       (router.Register router.NewRouter
          (mockMatcher false) (tracedHandler "handler0" None))
       (mockMatcher true) (tracedHandler "handler1" None))
    (mockMatcher true) (tracedHandler "handler2" None).

Definition two_middlewares : router.routerImpl :=
  router.Register
    (router.Use router.NewRouter [traced "M1"; traced "M2"])
    (mockMatcher true) (tracedHandler "H" None).

Definition traced_routes : router.routerImpl :=
  router.Register
    (router.Register
       (router.Register router.NewRouter
          (tracedMatcher "match0" false) (tracedHandler "handler0" None))
       (tracedMatcher "match1" true) (tracedHandler "handler1" (Some "failed")))
    (tracedMatcher "match2" true) (tracedHandler "handler2" None).

Definition contains_World : router.routerImpl :=
  router.Match router.NewRouter "/contains/World" (tracedHandler "h" None).

Definition world_hello : World := world_with (bytes_of "Hello World").

Definition deny_all : router.routerImpl := router.Use router.NewRouter [deny].


(** Releasing a run of buffers, none acquired again. *)
Fixpoint release_all (p : pool.poolImpl) (ls : list loc) : M pool.poolImpl :=
  match ls with
  | [] => ret p
  | l :: rest => do p' <- pool.Release p (Some l); release_all p' rest
  end.

(** A pool holding one idle, empty buffer, in a world whose next two
    [Get]s pick the first pooled item. *)
Definition one_idle : pool.poolImpl :=
  {| pool.pool := {| items := [1%positive]; New := Some NewBufferFn |} |}.

Definition world_one_idle : World :=
  {| buffers := {[ 1%positive := buffer.NewBuffer ]}; contexts := ∅; maps := ∅;
     contextPool := {| items := []; New := Some NewContextImplFn |};
     picks := [Some 0%nat; Some 0%nat]; callOrder := [] |}.

(** A context carrying one value. *)
Definition world_with_value : World :=
  {| buffers := {[ 1%positive := buffer.NewBuffer ]};
     contexts := {[ 1%positive := {| Context := Some Background;
                                     buffer := Some 1%positive;
                                     values := 1%positive |} ]};
     maps := {[ 1%positive := [(VString "user", VInt 7)] ]};
     contextPool := {| items := []; New := Some NewContextImplFn |};
     picks := []; callOrder := [] |}.

(** The context [ctx] is allocated and carries a buffer holding [data]. *)
Definition holds_payload (w : World) (ctx : loc) (data : list byte) : Prop :=
  exists ci b bi,
    contexts w !! ctx = Some ci /\ buffer ci = Some b /\
    buffers w !! b = Some bi /\ buffer.data bi = data.

(** [sub] occurs in [l] as a block of consecutive elements. *)
Definition occurs_in (sub l : list byte) : Prop :=
  exists l1 l2, l = l1 ++ sub ++ l2.

(** Two acquires with no release between them. *)
Definition acquire_twice (p : pool.poolImpl) : M (option loc * option loc) :=
  do a <- pool.Acquire p;
  do b <- pool.Acquire a.2;
  ret (a.1, b.1).

(** Acquire, use, Release, Acquire through the buffer manager. *)
Definition manager_reuse (bm : manage.bufferManagerImpl) (payload : list byte)
    : M (Z * Z) :=
  do a <- manage.Acquire bm;
  exec call_buffer a.1 (buffer.Write payload);
  do bm' <- manage.Release a.2 a.1;
  do released <- read_buffer a.1 buffer.Len;
  do b <- manage.Acquire bm';
  do again <- read_buffer b.1 buffer.Len;
  ret (released, again).

(** Registering a run of routes one by one. *)
Definition Register_all (r : router.routerImpl) (es : list router.routeEntry)
    : router.routerImpl :=
  foldl (fun r e => router.Register r (router.matcher e) (router.handler e)) r es.

(** A pipeline of two recording middleware. *)
Definition traced_pipeline : pipeline.pipelineImpl :=
  pipeline.Use (pipeline.Use pipeline.new [traced "P1"]) [traced "P2"].


(** A pool with no factory and nothing idle, as a test builds one. *)
Definition bare_pool : pool.poolImpl :=
  {| pool.pool := {| items := []; New := None |} |}.

(** The world [Fork] and [ForkWithBuffer] leave: a new map holding a
    copy of the receiver's entries, and a new struct referring to it. *)
Definition forked (w : World) (ci : contextImpl) (buf : option loc) : World :=
  set_contexts
    (insert (alloc (contexts w))
            {| Context := Context ci; buffer := buf; values := alloc (maps w) |})
    (set_maps (insert (alloc (maps w)) (router_context.copy (entries w (values ci))))
       w).

Example alloc_empty : alloc (∅ : gmap loc buffer.bufferImpl) = 1%positive.
Proof. vm_compute. reflexivity. Qed.

(** * Properties *)

(** ** Buffer *)

Lemma slice_to_in_range (s : list byte) (n : Z) :
  0 <= n <= Z.of_nat (length s) ->
  buffer.slice_to s n = Some (take (Z.to_nat n) s).
Proof.
  intros [H0 H1]. unfold buffer.slice_to.
  destruct (Z.leb_spec 0 n); [|lia].
  destruct (Z.leb_spec n (Z.of_nat (length s))); [|lia].
  reflexivity.
Qed.

Lemma slice_to_negative (s : list byte) (n : Z) :
  n < 0 -> buffer.slice_to s n = None.
Proof.
  intros H. unfold buffer.slice_to.
  destruct (Z.leb_spec 0 n); [lia|]. reflexivity.
Qed.

Lemma Reset_empties (b : buffer.bufferImpl) :
  buffer.Reset b = Some (tt, {| buffer.data := [] |}).
Proof.
  unfold buffer.Reset. rewrite slice_to_in_range by lia. reflexivity.
Qed.

Lemma Truncate_keeps (b : buffer.bufferImpl) (n : Z) :
  n >= buffer.Len b -> buffer.Truncate n b = Some (tt, b).
Proof.
  unfold buffer.Truncate, buffer.Len. intros H.
  destruct (Z.ltb_spec n (Z.of_nat (length (buffer.data b)))); [lia|reflexivity].
Qed.

Lemma Truncate_negative (b : buffer.bufferImpl) (n : Z) :
  n < 0 -> buffer.Truncate n b = None.
Proof.
  unfold buffer.Truncate. intros H.
  destruct (Z.ltb_spec n (Z.of_nat (length (buffer.data b)))); [|lia].
  rewrite slice_to_negative by lia. reflexivity.
Qed.

(** C8, as amended: for every buffer and every integer [n >= 0],
    [Truncate(n)] leaves the buffer as it is when [n >= Len()], and
    otherwise makes the length exactly [n] and keeps the first [n]
    bytes. *)
Theorem Truncate_nonnegative (b : buffer.bufferImpl) (n : Z) :
  0 <= n -> Truncate_contract b n.
Proof.
  intros Hn. split; [apply Truncate_keeps|].
  intros Hlt. unfold buffer.Truncate. unfold buffer.Len in Hlt.
  destruct (Z.ltb_spec n (Z.of_nat (length (buffer.data b)))); [|lia].
  rewrite slice_to_in_range by lia.
  eexists. split; [reflexivity|]. split.
  - unfold buffer.Len; simpl. rewrite length_take. lia.
  - intros i Hi. simpl. apply lookup_take_lt. lia.
Qed.

Lemma Truncate_nonnegative_witness :
  Truncate_contract {| buffer.data := [x61; x62; x63]%byte |} 2.
Proof. apply Truncate_nonnegative. lia. Defined.

(** C8 as stated fails on a negative [n]: the slice expression panics,
    so no buffer of length [n] results. *)
Lemma Truncate_negative_counterexample :
  ~ Truncate_contract {| buffer.data := [x61]%byte |} (-1).
Proof.
  intros [_ H]. destruct H as (b' & Hb & _).
  - unfold buffer.Len; simpl; lia.
  - rewrite Truncate_negative in Hb by lia. discriminate.
Qed.

(** ** The object pool *)

(** C10: [Size()] is 0 whatever the pool holds. *)
Theorem Size_is_zero (p : pool.poolImpl) : pool.Size p = 0.
Proof. reflexivity. Qed.

Lemma Release_grows_idle (p : pool.poolImpl) (l : loc) (w : World) p' w' :
  pool.Release p (Some l) w = Some (p', w') ->
  items (pool.pool p') = l :: items (pool.pool p) /\ pool.Size p' = 0.
Proof.
  unfold pool.Release, bind, ret. intros H.
  destruct (call_buffer (Some l) buffer.Reset w) as [[[] w1]|]; [|discriminate].
  injection H as <- <-. split; reflexivity.
Qed.

Lemma Size_ignores_released (ls : list loc) (p : pool.poolImpl) (w : World) :
  (forall l, l ∈ ls -> is_Some (buffers w !! l)) ->
  exists p' w',
    release_all p ls w = Some (p', w') /\
    length (items (pool.pool p')) = (length ls + length (items (pool.pool p)))%nat /\
    pool.Size p' = 0.
Proof.
  revert p w. induction ls as [|l rest IH]; intros p w Hall.
  - exists p, w. repeat split.
  - destruct (Hall l) as [bi Hl]; [apply list_elem_of_here|].
    cbn [release_all]. unfold bind at 1.
    unfold pool.Release, bind at 1, call_buffer. rewrite Hl, Reset_empties.
    cbn [ret].
    edestruct IH as (p' & w' & Hrun & Hlen & Hsize); [|rewrite Hrun].
    { intros x Hx. cbn. destruct (decide (l = x)) as [->|Hne].
      - rewrite lookup_insert_eq. eauto.
      - rewrite lookup_insert_ne by done. apply Hall, list_elem_of_further, Hx. }
    exists p', w'. split; [reflexivity|]. split; [|exact Hsize].
    rewrite Hlen. cbn. lia.
Qed.

Lemma NewPool_idle_empty (w : World) : idle_empty pool.NewPool w.
Proof. intros l Hl. cbn in Hl. inversion Hl. Qed.

(** C9, the code at the nil interface: the pool's [Release] returns with
    the pool and the world as they were (nothing is reset, nothing is
    pooled), and the manager's [Release] panics on its [buf.Reset()]. *)
Theorem Release_nil (p : pool.poolImpl) (bm : manage.bufferManagerImpl) (w : World) :
  pool.Release p None w = Some (p, w) /\
  manage.Release bm None w = None.
Proof.
  split.
  - destruct p as [sp]. reflexivity.
  - reflexivity.
Qed.

(** ** Match and the pattern forms *)

Lemma payload_world_with (data : list byte) :
  router.payload 1%positive (world_with data) = Some (data, world_with data).
Proof.
  unfold router.payload, router_context.Buffer, router_context.load, bind, ret.
  cbn [contexts world_with]. rewrite lookup_singleton_eq. cbn [buffer].
  unfold read_buffer. cbn [buffers world_with]. rewrite lookup_singleton_eq.
  reflexivity.
Qed.

Lemma last_matcher_Match (r : router.routerImpl) (pattern : string) h ctx :
  last_matcher (router.Match r pattern h) ctx =
  (do data <- router.payload ctx;
   ret ((length (bytes_of pattern) <=? length data)%nat
        && bytes.HasPrefix data (bytes_of pattern))).
Proof.
  unfold last_matcher, router.Match, router.Register. cbn [router.routes].
  rewrite last_snoc. reflexivity.
Qed.

(** C5, the code at the documented forms: whatever the pattern, the
    route [Match] registers tests the payload for the whole pattern
    string as a prefix, so a [/contains/], [/prefix/] or [/suffix/]
    pattern misses payloads that contain, begin with or end with [X]. *)
Theorem Match_is_prefix_only :
  (forall r pattern h data,
     verdict (last_matcher (router.Match r pattern h)) data
     = Some (bytes.HasPrefix data (bytes_of pattern))) /\
  (verdict (last_matcher (router.Match router.NewRouter "/contains/World" okHandler))
           (bytes_of "Hello World") = Some false /\
   bytes.Contains (bytes_of "Hello World") (bytes_of "World") = true) /\
  (verdict (last_matcher (router.Match router.NewRouter "/prefix/Hello" okHandler))
           (bytes_of "Hello, World!") = Some false /\
   bytes.HasPrefix (bytes_of "Hello, World!") (bytes_of "Hello") = true) /\
  (verdict (last_matcher (router.Match router.NewRouter "/suffix/World" okHandler))
           (bytes_of "Hello World") = Some false /\
   bytes.HasSuffix (bytes_of "Hello World") (bytes_of "World") = true) /\
  verdict (last_matcher (router.Match router.NewRouter "Hello" okHandler))
          (bytes_of "Hello, World!") = Some true.
Proof.
  assert (Hgen : forall r pattern h data,
     verdict (last_matcher (router.Match r pattern h)) data
     = Some (bytes.HasPrefix data (bytes_of pattern))).
  { intros r pattern h data. unfold verdict.
    rewrite last_matcher_Match. unfold bind.
    rewrite payload_world_with. unfold ret. cbn [fmap option_fmap option_map fst].
    f_equal. unfold bytes.HasPrefix.
    destruct (length (bytes_of pattern) <=? length data)%nat; reflexivity. }
  split; [exact Hgen|].
  rewrite !Hgen. repeat split; vm_compute; reflexivity.
Qed.

(** ** Context *)

(** *** Equality of keys *)

Lemma float_eq_sym (a b : float64) : float_eq a b = float_eq b a.
Proof.
  unfold float_eq. rewrite (Z.eqb_sym a b).
  destruct (isNaN a), (isNaN b), (isZero a), (isZero b), (b =? a); reflexivity.
Qed.

Lemma float_eq_trans (a b c : float64) :
  float_eq a b = true -> float_eq b c = float_eq a c.
Proof.
  unfold float_eq.
  destruct (isNaN a); [discriminate|]. destruct (isNaN b); [discriminate|].
  cbn [negb andb].
  destruct (Z.eqb_spec a b) as [->|Hab]; [reflexivity|].
  cbn [orb]. destruct (isZero a) eqn:Za; [|discriminate].
  destruct (isZero b) eqn:Zb; [|discriminate]. intros _.
  destruct (isNaN c); [reflexivity|]. cbn [negb andb].
  destruct (isZero c) eqn:Zc.
  - rewrite !Bool.orb_true_r. reflexivity.
  - destruct (Z.eqb_spec b c) as [->|_]; [congruence|].
    destruct (Z.eqb_spec a c) as [->|_]; [congruence|]. reflexivity.
Qed.

Lemma float_eq_irrefl (a b : float64) :
  float_eq a a = false -> float_eq a b = false.
Proof.
  unfold float_eq. rewrite Z.eqb_refl.
  destruct (isNaN a); [reflexivity|discriminate].
Qed.

Lemma key_eq_sym (a b : key) : key_eq a b = key_eq b a.
Proof.
  destruct a, b; cbn [key_eq]; try reflexivity.
  - apply bool_decide_ext. split; congruence.
  - apply Z.eqb_sym.
  - apply Z.eqb_sym.
  - destruct b0, b; reflexivity.
  - apply float_eq_sym.
  - apply Z.eqb_sym.
Qed.

Lemma key_eq_trans (a b c : key) :
  key_eq a b = true -> key_eq b c = key_eq a c.
Proof.
  destruct a, b; cbn [key_eq]; try discriminate; intros H.
  - reflexivity.
  - apply bool_decide_eq_true in H. subst. reflexivity.
  - apply Z.eqb_eq in H. subst. reflexivity.
  - apply Z.eqb_eq in H. subst. reflexivity.
  - apply Bool.eqb_prop in H. subst. reflexivity.
  - destruct c; try reflexivity. cbn [key_eq]. apply float_eq_trans, H.
  - apply Z.eqb_eq in H. subst. reflexivity.
Qed.

Lemma key_eq_irrefl (a b : key) :
  reflexive a = false -> key_eq a b = false /\ key_eq b a = false.
Proof.
  unfold reflexive. intros H.
  assert (Hab : key_eq a b = false).
  { destruct a, b; cbn [key_eq] in *; try reflexivity; try discriminate.
    - rewrite bool_decide_eq_false in H. congruence.
    - rewrite Z.eqb_refl in H. discriminate.
    - rewrite Z.eqb_refl in H. discriminate.
    - destruct b0; discriminate.
    - apply float_eq_irrefl, H.
    - rewrite Z.eqb_refl in H. discriminate. }
  split; [exact Hab|]. rewrite key_eq_sym. exact Hab.
Qed.

Lemma NaN_irreflexive : reflexive (VFloat64 NaN) = false.
Proof. reflexivity. Qed.

Lemma unhashable_irreflexive (k : key) : hashable k = false -> reflexive k = false.
Proof. destruct k; try discriminate. reflexivity. Qed.

(** Keys as the run time compares them: an [int] is not an [int64], the
    two zeros of [float64] are one key, and a NaN is a new key at every
    assignment that no lookup finds. *)
Example keys_compared :
  key_eq (VInt 1) (VInt64 1) = false /\
  gomap.set [(VFloat64 0, VInt 1)] (VFloat64 (2 ^ 63)) (VInt 2)
    = [(VFloat64 (2 ^ 63), VInt 2)] /\
  gomap.set (gomap.set [] (VFloat64 NaN) (VInt 1)) (VFloat64 NaN) (VInt 2)
    = [(VFloat64 NaN, VInt 1); (VFloat64 NaN, VInt 2)] /\
  gomap.get [(VFloat64 NaN, VInt 1)] (VFloat64 NaN) = VNil /\
  gomap.delete [(VFloat64 NaN, VInt 1)] (VFloat64 NaN) = [(VFloat64 NaN, VInt 1)] /\
  router_context.clear [(VString "user", VInt 7); (VFloat64 NaN, VInt 1)]
    = [(VFloat64 NaN, VInt 1)].
Proof. vm_compute. repeat split. Qed.

(** *** Map objects *)

Lemma delete_irreflexive (m : list (key * any)) (k : key) :
  reflexive k = false -> gomap.delete m k = m.
Proof.
  intros H. unfold gomap.delete. induction m as [|e m IH]; [reflexivity|].
  cbn [List.filter]. rewrite (proj2 (key_eq_irrefl k e.1 H)). cbn [negb].
  f_equal. exact IH.
Qed.

Lemma set_irreflexive (m : list (key * any)) (k : key) (v : any) :
  reflexive k = false -> gomap.set m k v = m ++ [(k, v)].
Proof.
  intros H. unfold gomap.set.
  replace (existsb (fun e => key_eq e.1 k) m) with false; [reflexivity|].
  symmetry. induction m as [|e m IH]; [reflexivity|].
  cbn [existsb]. rewrite (proj2 (key_eq_irrefl k e.1 H)). exact IH.
Qed.

Lemma get_irreflexive (m : list (key * any)) (k : key) :
  reflexive k = false -> gomap.get m k = VNil.
Proof.
  intros H. unfold gomap.get. induction m as [|e m IH]; [reflexivity|].
  cbn [List.find]. rewrite (proj2 (key_eq_irrefl k e.1 H)). exact IH.
Qed.

Lemma get_set_eq (m : list (key * any)) (k : key) (v : any) :
  reflexive k = true -> gomap.get (gomap.set m k v) k = v.
Proof.
  intros H. unfold gomap.get, gomap.set.
  destruct (existsb (fun e => key_eq e.1 k) m) eqn:Hex.
  - induction m as [|e m IH]; [discriminate|].
    cbn [existsb] in Hex. cbn [List.map List.find].
    destruct (key_eq e.1 k) eqn:He.
    + cbn [fst]. unfold reflexive in H. rewrite H. reflexivity.
    + rewrite He. apply IH. exact Hex.
  - induction m as [|e m IH].
    + cbn. unfold reflexive in H. rewrite H. reflexivity.
    + cbn [existsb] in Hex. apply Bool.orb_false_iff in Hex as [He Hex].
      cbn [app List.find]. rewrite He. apply IH, Hex.
Qed.

Lemma get_set_ne (m : list (key * any)) (k k' : key) (v : any) :
  key_eq k k' = false -> gomap.get (gomap.set m k v) k' = gomap.get m k'.
Proof.
  intros H. unfold gomap.get, gomap.set.
  destruct (existsb (fun e => key_eq e.1 k) m).
  - induction m as [|e m IH]; [reflexivity|].
    cbn [List.map List.find].
    destruct (key_eq e.1 k) eqn:He.
    + cbn [fst]. rewrite H.
      rewrite <- (key_eq_trans _ _ k' He), H. exact IH.
    + destruct (key_eq e.1 k'); [reflexivity|exact IH].
  - induction m as [|e m IH].
    + cbn. rewrite H. reflexivity.
    + cbn [app List.find]. destruct (key_eq e.1 k'); [reflexivity|exact IH].
Qed.

Lemma get_delete_eq (m : list (key * any)) (k : key) :
  gomap.get (gomap.delete m k) k = VNil.
Proof.
  unfold gomap.get, gomap.delete. induction m as [|e m IH]; [reflexivity|].
  cbn [List.filter]. destruct (key_eq e.1 k) eqn:He; cbn [negb]; [exact IH|].
  cbn [List.find]. rewrite He. exact IH.
Qed.

Lemma get_delete_ne (m : list (key * any)) (k k' : key) :
  key_eq k k' = false -> gomap.get (gomap.delete m k) k' = gomap.get m k'.
Proof.
  intros H. unfold gomap.get, gomap.delete. induction m as [|e m IH]; [reflexivity|].
  cbn [List.filter List.find]. destruct (key_eq e.1 k) eqn:He; cbn [negb].
  - rewrite <- (key_eq_trans _ _ k' He), H. exact IH.
  - cbn [List.find]. destruct (key_eq e.1 k'); [reflexivity|exact IH].
Qed.

Lemma filter_filter_and {A} (p q : A -> bool) (l : list A) :
  List.filter p (List.filter q l) = List.filter (fun x => q x && p x) l.
Proof.
  induction l as [|x l IH]; [reflexivity|].
  cbn [List.filter]. destruct (q x); cbn [andb List.filter]; rewrite IH; reflexivity.
Qed.

Lemma foldl_delete (l acc : list (key * any)) :
  foldl (fun acc e => gomap.delete acc e.1) acc l
  = List.filter (fun e => forallb (fun e' => negb (key_eq e.1 e'.1)) l) acc.
Proof.
  revert acc. induction l as [|e' l IH]; intros acc.
  - cbn. induction acc as [|a acc IHa]; [reflexivity|]. cbn. f_equal. exact IHa.
  - cbn [foldl]. rewrite IH. unfold gomap.delete. rewrite filter_filter_and.
    reflexivity.
Qed.

Lemma clear_survivors (m : list (key * any)) :
  router_context.clear m = survivors m.
Proof.
  unfold router_context.clear, survivors. rewrite foldl_delete.
  apply List.filter_ext_in. intros e He.
  destruct (reflexive e.1) eqn:Hr; cbn [negb].
  - apply Bool.not_true_is_false. intros Hall.
    rewrite forallb_forall in Hall. specialize (Hall e He).
    unfold reflexive in Hr. rewrite Hr in Hall. discriminate.
  - apply forallb_forall. intros e' _.
    rewrite (proj1 (key_eq_irrefl e.1 e'.1 Hr)). reflexivity.
Qed.

Lemma survivors_irreflexive (m : list (key * any)) :
  Forall (fun e => reflexive e.1 = false) (survivors m).
Proof.
  unfold survivors. induction m as [|e m IH]; [constructor|].
  cbn [List.filter]. destruct (reflexive e.1) eqn:Hr; cbn [negb]; [exact IH|].
  constructor; assumption.
Qed.

Lemma survivors_reflexive (m : list (key * any)) :
  Forall (fun e => reflexive e.1 = true) m -> survivors m = [].
Proof.
  unfold survivors. induction 1 as [|e m He _ IH]; [reflexivity|].
  cbn [List.filter]. rewrite He. exact IH.
Qed.

Lemma survivors_idem (m : list (key * any)) : survivors (survivors m) = survivors m.
Proof.
  unfold survivors. rewrite filter_filter_and. apply List.filter_ext.
  intros e. destruct (reflexive e.1); reflexivity.
Qed.





Lemma map_ok_delete (m : list (key * any)) (k : key) :
  map_ok m -> map_ok (gomap.delete m k).
Proof.
  unfold gomap.delete. induction m as [|e m IH]; [auto|].
  intros (Hh & He & Hm). cbn [List.filter].
  destruct (negb (key_eq e.1 k)); [|auto].
  split; [exact Hh|]. split; [|auto].
  clear -He. induction He as [|a m Ha _ IHa]; [constructor|].
  cbn [List.filter]. destruct (negb (key_eq a.1 k)); [constructor; assumption|assumption].
Qed.

Lemma map_ok_set (m : list (key * any)) (k : key) (v : any) :
  map_ok m -> hashable k = true -> map_ok (gomap.set m k v).
Proof.
  intros Hm Hk. unfold gomap.set.
  destruct (existsb (fun e => key_eq e.1 k) m) eqn:Hex.
  - clear Hex. induction m as [|e m IH]; [exact I|].
    destruct Hm as (Hh & He & Hm). cbn [List.map].
    destruct (key_eq e.1 k) eqn:Hek.
    + assert (Hk' : Forall (fun e' => key_eq k e'.1 = false) m).
      { eapply Forall_impl; [exact He|]. intros e' He'. cbn beta in He'.
        rewrite (key_eq_trans _ _ _ Hek). exact He'. }
      replace (List.map (fun e0 => if key_eq e0.1 k then (k, v) else e0) m) with m.
      * split; [exact Hk|]. split; [exact Hk'|exact Hm].
      * clear -Hk'. induction Hk' as [|a m Ha _ IHa]; [reflexivity|].
        cbn [List.map]. rewrite key_eq_sym, Ha. f_equal. exact IHa.
    + split; [exact Hh|]. split; [|apply IH, Hm].
      clear -He Hek. induction He as [|a m Ha _ IHa]; [constructor|].
      cbn [List.map]. constructor; [|exact IHa].
      destruct (key_eq a.1 k); [exact Hek|exact Ha].
  - induction m as [|e m IH]; [cbn; auto|].
    destruct Hm as (Hh & He & Hm). cbn [existsb] in Hex.
    apply Bool.orb_false_iff in Hex as [Hek Hex].
    cbn [app]. split; [exact Hh|]. split; [|apply IH; assumption].
    apply Forall_app. split; [exact He|]. constructor; [exact Hek|constructor].
Qed.

Lemma alloc_fresh {V} (h : gmap loc V) : h !! alloc h = None.
Proof. apply not_elem_of_dom. unfold alloc. apply is_fresh. Qed.

(** *** The methods on an allocated context *)

Lemma Set_run (c : loc) (ci : contextImpl) (m : list (key * any)) (k : key)
    (v : any) (w : World) :
  contexts w !! c = Some ci -> maps w !! values ci = Some m ->
  hashable k = true ->
  router_context.Set_ c k v w
  = Some (tt, set_maps (insert (values ci) (gomap.set m k v)) w).
Proof.
  intros Hc Hm Hk.
  unfold router_context.Set_, router_context.load, bind, mapassign.
  rewrite Hc, Hm, Hk. reflexivity.
Qed.

Lemma Delete_run (c : loc) (ci : contextImpl) (k : key) (w : World) :
  contexts w !! c = Some ci -> hashable k = true ->
  router_context.Delete c k w
  = Some (tt, set_maps (alter (fun m => gomap.delete m k) (values ci)) w).
Proof.
  intros Hc Hk.
  unfold router_context.Delete, router_context.load, bind, mapdelete.
  rewrite Hc, Hk. reflexivity.
Qed.

Lemma Get_run (c : loc) (ci : contextImpl) (k : key) (w : World) :
  contexts w !! c = Some ci -> hashable k = true ->
  router_context.Get c k w = Some (gomap.get (entries w (values ci)) k, w).
Proof.
  intros Hc Hk.
  unfold router_context.Get, router_context.load, bind, mapaccess.
  rewrite Hc, Hk. reflexivity.
Qed.

Lemma unhashable_panics (c : loc) (k : key) (v : any) (w : World) :
  hashable k = false ->
  router_context.Set_ c k v w = None /\
  router_context.Get c k w = None /\
  router_context.Delete c k w = None.
Proof.
  intros Hk.
  unfold router_context.Set_, router_context.Get, router_context.Delete,
    router_context.load, bind, mapassign, mapaccess, mapdelete.
  destruct (contexts w !! c) as [ci|]; [|auto].
  rewrite Hk. destruct (maps w !! values ci); auto.
Qed.

(** What a returning update of the store of [c] leaves alone. *)
Lemma apply_op_inv (op : store_op) (c : loc) (ci : contextImpl) (w w' : World) :
  contexts w !! c = Some ci ->
  apply_op c op w = Some (tt, w') ->
  contexts w' = contexts w /\
  buffers w' = buffers w /\
  contextPool w' = contextPool w /\
  callOrder w' = callOrder w /\
  (forall l, l <> values ci -> maps w' !! l = maps w !! l) /\
  (forall m, maps w !! values ci = Some m ->
     exists m', maps w' !! values ci = Some m' /\ (map_ok m -> map_ok m')).
Proof.
  intros Hc. destruct op as [k v|k]; cbn [apply_op];
    unfold router_context.Set_, router_context.Delete, router_context.load,
      bind, mapassign, mapdelete; rewrite Hc.
  - destruct (maps w !! values ci) as [m|] eqn:Hm; [|discriminate].
    destruct (hashable k) eqn:Hk; [|discriminate].
    intros H. injection H as <-. repeat split.
    + intros l Hl. cbn. rewrite lookup_insert_ne; done.
    + intros m0 Hm0. injection Hm0 as <-. exists (gomap.set m k v).
      cbn. rewrite lookup_insert_eq. split; [reflexivity|].
      intros Hok. apply map_ok_set; assumption.
  - destruct (hashable k) eqn:Hk; [|discriminate].
    intros H. injection H as <-. repeat split.
    + intros l Hl. cbn. rewrite lookup_alter_ne; done.
    + intros m Hm. exists (gomap.delete m k).
      cbn. rewrite lookup_alter_eq, Hm. split; [reflexivity|].
      apply map_ok_delete.
Qed.

Lemma apply_ops_inv (ops : list store_op) (c : loc) (ci : contextImpl)
    (w w' : World) :
  contexts w !! c = Some ci ->
  apply_ops c ops w = Some (tt, w') ->
  contexts w' = contexts w /\
  buffers w' = buffers w /\
  contextPool w' = contextPool w /\
  callOrder w' = callOrder w /\
  (forall l, l <> values ci -> maps w' !! l = maps w !! l) /\
  (forall m, maps w !! values ci = Some m ->
     exists m', maps w' !! values ci = Some m' /\ (map_ok m -> map_ok m')).
Proof.
  revert w. induction ops as [|op rest IH]; intros w Hc.
  - cbn. intros H. injection H as <-. repeat split. eauto.
  - cbn [apply_ops]. unfold bind at 1.
    destruct (apply_op c op w) as [[[] w1]|] eqn:Hop; [|discriminate].
    intros Hrest.
    destruct (apply_op_inv op c ci w w1 Hc Hop) as (Hc1 & Hb1 & Hp1 & Ho1 & Hfr1 & Hm1).
    destruct (IH w1) as (Hc2 & Hb2 & Hp2 & Ho2 & Hfr2 & Hm2);
      [congruence|exact Hrest|].
    split; [congruence|]. split; [congruence|]. split; [congruence|].
    split; [congruence|]. split.
    + intros l Hl. rewrite Hfr2, Hfr1; done.
    + intros m Hm. destruct (Hm1 m Hm) as (m1 & Hm1' & Hok1).
      destruct (Hm2 m1 Hm1') as (m2 & Hm2' & Hok2).
      exists m2. split; [exact Hm2'|auto].
Qed.

(** Updates with keys that can be hashed return when the map is not
    nil. *)
Lemma apply_ops_total (ops : list store_op) (c : loc) (ci : contextImpl)
    (w : World) :
  contexts w !! c = Some ci ->
  is_Some (maps w !! values ci) ->
  ops_hashable ops ->
  exists w', apply_ops c ops w = Some (tt, w').
Proof.
  revert w. induction ops as [|op rest IH]; intros w Hc [m Hm] Hops.
  - exists w. reflexivity.
  - inversion Hops as [|? ? Hop Hrest]; subst.
    assert (exists w1, apply_op c op w = Some (tt, w1)) as [w1 Hrun].
    { destruct op as [k v|k]; cbn [apply_op].
      - rewrite (Set_run c ci m) by assumption. eauto.
      - rewrite (Delete_run c ci) by assumption. eauto. }
    destruct (apply_op_inv op c ci w w1 Hc Hrun) as (Hc1 & _ & _ & _ & _ & Hm1).
    destruct (Hm1 m Hm) as (m1 & Hm1' & _).
    destruct (IH w1) as [w' Hrun']; [congruence|eauto|exact Hrest|].
    exists w'. cbn [apply_ops]. unfold bind. rewrite Hrun. exact Hrun'.
Qed.

Lemma Fork_run (w : World) (c : loc) (ci : contextImpl) :
  contexts w !! c = Some ci ->
  router_context.Fork c w = Some (alloc (contexts w), forked w ci (buffer ci)).
Proof.
  intros Hc. unfold router_context.Fork, router_context.load, router_context.store,
    bind, gets, modify, ret, make_map. rewrite Hc. cbn.
  unfold forked, set_contexts, set_maps. cbn.
  rewrite insert_insert_eq. reflexivity.
Qed.





(** ** Pools: what is acquired is empty *)

Lemma sync_Get_buffer (sp : syncPool) (w : World) :
  New sp = Some NewBufferFn ->
  exists l sp' w',
    sync.Get sp w = Some ((Some l, sp'), w') /\
    New sp' = Some NewBufferFn /\
    (forall x, x ∈ items sp' -> x ∈ items sp) /\
    ((l ∈ items sp /\ buffers w' = buffers w) \/
     (buffers w !! l = None /\
      buffers w' = <[l := buffer.NewBuffer]> (buffers w))).
Proof.
  intros HNew. cbv [sync.Get sync.next_pick bind].
  destruct (picks w) as [|[i|] rest].
  - rewrite HNew. cbv [run_factory NewBuffer ret].
    eexists _, _, _. split; [reflexivity|]. split; [exact HNew|].
    split; [auto|]. right. split; [apply alloc_fresh|reflexivity].
  - destruct (items sp !! i) as [l|] eqn:Hi.
    + cbv [ret]. eexists _, _, _. split; [reflexivity|]. split; [exact HNew|].
      split; [intros x Hx; cbn in Hx; eapply list_elem_of_delete_inv; eauto|].
      left. split; [eapply list_elem_of_lookup_2; eauto|reflexivity].
    + rewrite HNew. cbv [run_factory NewBuffer ret].
      eexists _, _, _. split; [reflexivity|]. split; [exact HNew|].
      split; [auto|]. right. split; [apply alloc_fresh|reflexivity].
  - rewrite HNew. cbv [run_factory NewBuffer ret].
    eexists _, _, _. split; [reflexivity|]. split; [exact HNew|].
    split; [auto|]. right. split; [apply alloc_fresh|reflexivity].
Qed.

Lemma Acquire_empty (p : pool.poolImpl) (w : World) :
  New (pool.pool p) = Some NewBufferFn ->
  idle_empty p w ->
  exists l p' w',
    pool.Acquire p w = Some ((Some l, p'), w') /\
    buffers w' !! l = Some {| buffer.data := [] |} /\
    New (pool.pool p') = Some NewBufferFn /\
    idle_empty p' w'.
Proof.
  intros HNew Hidle.
  destruct (sync_Get_buffer (pool.pool p) w HNew)
    as (l & sp' & w' & Hget & HNew' & Hsub & Hcase).
  exists l, {| pool.pool := sp' |}, w'.
  split. { unfold pool.Acquire, bind at 1. rewrite Hget. reflexivity. }
  destruct Hcase as [[Hin Hb]|[Hfresh Hb]]; rewrite Hb.
  - split.
    { destruct (Hidle l Hin) as ([d] & Hbi & He). cbn in He. subst d. exact Hbi. }
    split; [exact HNew'|].
    intros x Hx. rewrite Hb. apply Hidle, Hsub, Hx.
  - split; [apply lookup_insert_eq|]. split; [exact HNew'|].
    intros x Hx. rewrite Hb.
    destruct (Hidle x (Hsub x Hx)) as (bi & Hbi & He).
    exists bi. split; [|exact He]. rewrite lookup_insert_ne; [exact Hbi|].
    intros <-. rewrite Hfresh in Hbi. discriminate.
Qed.

Lemma write_then_Release (p : pool.poolImpl) (l : loc) (payload : list byte)
    (w : World) (bi : buffer.bufferImpl) :
  buffers w !! l = Some bi ->
  idle_empty p w ->
  exists w1 p' w2,
    call_buffer (Some l) (buffer.Write payload) w
      = Some (Z.of_nat (length payload), w1) /\
    pool.Release p (Some l) w1 = Some (p', w2) /\
    buffers w2 !! l = Some {| buffer.data := [] |} /\
    items (pool.pool p') = l :: items (pool.pool p) /\
    New (pool.pool p') = New (pool.pool p) /\
    idle_empty p' w2.
Proof.
  intros Hl Hidle.
  eexists _, _, _. split.
  { unfold call_buffer. rewrite Hl. cbn. reflexivity. }
  split.
  { unfold pool.Release, bind, call_buffer. cbn [buffers set_buffers].
    rewrite lookup_insert_eq, Reset_empties. reflexivity. }
  split; [cbn; apply lookup_insert_eq|].
  split; [reflexivity|]. split; [reflexivity|].
  intros x Hx. cbn in Hx. cbn [buffers set_buffers].
  destruct (decide (x = l)) as [->|Hne].
  - eexists. rewrite lookup_insert_eq. split; reflexivity.
  - rewrite !lookup_insert_ne by done. apply Hidle.
    apply elem_of_cons in Hx. destruct Hx; [contradiction|assumption].
Qed.

Lemma newContextImpl_run (w : World) :
  exists l vl w',
    run_factory NewContextImplFn w = Some (l, w') /\
    contexts w' !! l = Some {| Context := None; buffer := None; values := vl |} /\
    maps w' !! vl = Some [] /\
    (forall x, is_Some (contexts w !! x) -> contexts w' !! x = contexts w !! x) /\
    (forall x, is_Some (maps w !! x) -> maps w' !! x = maps w !! x) /\
    buffers w' = buffers w /\
    callOrder w' = callOrder w /\
    contextPool w' = contextPool w.
Proof.
  eexists _, _, _. split; [reflexivity|]. cbn.
  split; [apply lookup_insert_eq|]. split; [apply lookup_insert_eq|].
  split. { intros x [xi Hx]. rewrite lookup_insert_ne; [reflexivity|].
           intros <-. rewrite alloc_fresh in Hx. discriminate. }
  split. { intros x [xi Hx]. rewrite lookup_insert_ne; [reflexivity|].
           intros <-. rewrite alloc_fresh in Hx. discriminate. }
  repeat split.
Qed.

Lemma sync_Get_context (sp : syncPool) (w : World) :
  New sp = Some NewContextImplFn ->
  (forall x, x ∈ items sp -> is_Some (contexts w !! x)) ->
  exists l ci sp' w',
    sync.Get sp w = Some ((Some l, sp'), w') /\
    New sp' = Some NewContextImplFn /\
    (forall x, x ∈ items sp' -> x ∈ items sp) /\
    contexts w' !! l = Some ci /\
    (forall x, is_Some (contexts w !! x) -> contexts w' !! x = contexts w !! x) /\
    (forall x, is_Some (maps w !! x) -> maps w' !! x = maps w !! x) /\
    buffers w' = buffers w /\
    callOrder w' = callOrder w /\
    contextPool w' = contextPool w /\
    (l ∈ items sp \/ maps w' !! values ci = Some []).
Proof.
  intros HNew Hall.
  assert (Hmade : forall wx,
    contexts wx = contexts w -> maps wx = maps w -> buffers wx = buffers w ->
    callOrder wx = callOrder w -> contextPool wx = contextPool w ->
    exists l ci w',
      (do l <- run_factory NewContextImplFn; ret (Some l, sp)) wx
        = Some ((Some l, sp), w') /\
      contexts w' !! l = Some ci /\
      (forall x, is_Some (contexts w !! x) -> contexts w' !! x = contexts w !! x) /\
      (forall x, is_Some (maps w !! x) -> maps w' !! x = maps w !! x) /\
      buffers w' = buffers w /\ callOrder w' = callOrder w /\
      contextPool w' = contextPool w /\
      maps w' !! values ci = Some []).
  { intros wx E1 E2 E3 E4 E5.
    destruct (newContextImpl_run wx) as (l & vl & w' & Hrun & Hl & Hm & Hc & Hms & Hb & Ho & Hp).
    exists l, {| Context := None; buffer := None; values := vl |}, w'.
    unfold bind. rewrite Hrun. split; [reflexivity|]. split; [exact Hl|].
    rewrite E1, E2 in *. repeat split; try congruence; auto. }
  cbv [sync.Get sync.next_pick]. unfold bind at 1.
  destruct (picks w) as [|[i|] rest] eqn:Hpicks.
  - rewrite HNew.
    destruct (Hmade w) as (l & ci & w' & Hrun & H); try reflexivity.
    exists l, ci, sp, w'. split; [exact Hrun|]. split; [exact HNew|].
    split; [auto|]. intuition.
  - destruct (items sp !! i) as [l|] eqn:Hi.
    + cbv [ret]. destruct (Hall l) as [ci Hl]; [eapply list_elem_of_lookup_2; eauto|].
      eexists l, ci, _, _. split; [reflexivity|]. split; [exact HNew|].
      split; [intros x Hx; cbn in Hx; eapply list_elem_of_delete_inv; eauto|].
      split; [exact Hl|]. repeat split.
      left. eapply list_elem_of_lookup_2; eauto.
    + rewrite HNew.
      destruct (Hmade (set_picks rest w)) as (l & ci & w' & Hrun & H); try reflexivity.
      exists l, ci, sp, w'. split; [exact Hrun|]. split; [exact HNew|].
      split; [auto|]. intuition.
  - rewrite HNew.
    destruct (Hmade (set_picks rest w)) as (l & ci & w' & Hrun & H); try reflexivity.
    exists l, ci, sp, w'. split; [exact Hrun|]. split; [exact HNew|].
    split; [auto|]. intuition.
Qed.

Lemma entries_survivors_alter (ms : gmap loc (list (key * any))) (l : loc)
    (w : World) :
  maps w = alter router_context.clear l ms ->
  entries w l = survivors (default [] (ms !! l)).
Proof.
  intros E. unfold entries. rewrite E, lookup_alter_eq.
  destruct (ms !! l); cbn; [apply clear_survivors|reflexivity].
Qed.

Lemma NewContext_fresh_store (parent : option stdContext) (buf : option loc)
    (w : World) :
  world_ok w ->
  exists c vl w',
    router_context.NewContext parent buf w = Some (c, w') /\
    contexts w' !! c
      = Some {| Context := Some (default Background parent);
                buffer := buf; values := vl |} /\
    survivors (entries w' vl) = entries w' vl /\
    world_ok w' /\
    buffers w' = buffers w /\
    callOrder w' = callOrder w /\
    (pool_ready w -> is_Some (maps w' !! vl) /\ pool_ready w').
Proof.
  intros [HNew Hall].
  destruct (sync_Get_context (contextPool w) w HNew Hall)
    as (l & ci & sp' & w1 & Hget & HNew' & Hsub & Hl & Hext & Hmext & Hb & Ho & Hp & Hcase).
  set (ci' := {| Context := Some (default Background parent);
                 buffer := buf; values := values ci |}).
  exists l, (values ci),
    (set_maps (alter router_context.clear (values ci))
       (set_contexts (insert l ci') (set_contextPool sp' w1))).
  split.
  { unfold router_context.NewContext, router_context.contextPool_Get.
    unfold bind at 1 2 3. unfold gets at 1. rewrite Hget.
    cbv [modify bind router_context.load ret snd fst].
    cbn [contexts set_contextPool]. rewrite Hl.
    cbv [router_context.store router_context.range_delete modify].
    destruct parent; reflexivity. }
  split; [cbn; apply lookup_insert_eq|].
  split.
  { rewrite (entries_survivors_alter (maps w1)) by reflexivity.
    apply survivors_idem. }
  split.
  { split; [exact HNew'|].
    intros x Hx. cbn in Hx |- *.
    destruct (decide (l = x)) as [->|Hne].
    - rewrite lookup_insert_eq. eauto.
    - rewrite lookup_insert_ne by done. rewrite Hext; apply Hall, Hsub, Hx. }
  split; [exact Hb|]. split; [exact Ho|].
  intros Hready.
  assert (Hvl : is_Some (maps w1 !! values ci)).
  { destruct Hcase as [Hin|Hnew]; [|eauto].
    destruct (Hready l Hin) as (xi & Hxi & Hm).
    rewrite Hext in Hl by eauto. replace ci with xi by congruence.
    rewrite Hmext; assumption. }
  split.
  { cbn. apply lookup_alter_is_Some. exact Hvl. }
  intros x Hx. cbn in Hx |- *.
  destruct (decide (l = x)) as [->|Hne].
  - exists ci'. rewrite lookup_insert_eq. split; [reflexivity|].
    apply lookup_alter_is_Some. exact Hvl.
  - destruct (Hready x (Hsub x Hx)) as (xi & Hxi & Hm).
    exists xi. rewrite lookup_insert_ne by done.
    rewrite Hext by eauto. split; [exact Hxi|].
    apply lookup_alter_is_Some. rewrite Hmext; assumption.
Qed.

Lemma Reset_clears (c : loc) (ci : contextImpl) (w : World) :
  contexts w !! c = Some ci ->
  exists w',
    router_context.Reset c w = Some (tt, w') /\
    contexts w' !! c
      = Some {| Context := None; buffer := None; values := values ci |} /\
    entries w' (values ci) = survivors (entries w (values ci)) /\
    c ∈ items (contextPool w') /\
    (world_ok w -> world_ok w') /\
    buffers w' = buffers w /\
    callOrder w' = callOrder w /\
    (forall l, l <> c -> contexts w' !! l = contexts w !! l) /\
    (forall l, l <> values ci -> maps w' !! l = maps w !! l).
Proof.
  intros Hc. eexists. split.
  { unfold router_context.Reset, router_context.load, router_context.store,
      router_context.range_delete, router_context.contextPool_Put, bind, modify, gets.
    rewrite Hc. reflexivity. }
  split; [cbn; apply lookup_insert_eq|].
  split; [apply (entries_survivors_alter (maps w)); reflexivity|].
  split; [cbn; apply list_elem_of_here|].
  split.
  { intros [HNew Hall]. split; [exact HNew|].
    intros x Hx. cbn in Hx |- *.
    destruct (decide (c = x)) as [->|Hne].
    - rewrite lookup_insert_eq. eauto.
    - rewrite lookup_insert_ne by done. apply Hall.
      apply elem_of_cons in Hx. destruct Hx; [congruence|assumption]. }
  split; [reflexivity|]. split; [reflexivity|]. split.
  - intros l Hl. cbn. rewrite lookup_insert_ne; done.
  - intros l Hl. cbn. rewrite lookup_alter_ne; done.
Qed.

Lemma snapshot_run (c : loc) (ci : contextImpl) (w : World) :
  contexts w !! c = Some ci ->
  snapshot c w = Some ((ci, entries w (values ci)), w).
Proof.
  intros Hc. unfold snapshot, router_context.load, bind, gets, ret.
  rewrite Hc. reflexivity.
Qed.

(** C2, the code on the two pools.  On the buffer pool the claim holds:
    the released buffer has length 0 at once, and so has the buffer
    acquired next.  On the context pool, after updates whose keys can be
    hashed, [Reset] nils the parent and the buffer but its loop of
    deletes leaves every entry whose key is not equal to itself: the
    released store is the used store without the entries of the other
    keys, and the store handed out next is not empty either when the
    pool hands the same context out, as with a NaN key here. *)
Theorem reacquired_keeps_NaN_keys (p : pool.poolImpl) (w : World)
    (payload : list byte) (parent parent' : option stdContext)
    (buf buf' : option loc) (ops : list store_op) :
  New (pool.pool p) = Some NewBufferFn ->
  idle_empty p w ->
  world_ok w ->
  pool_ready w ->
  ops_hashable ops ->
  (exists w', buffer_reuse p payload w = Some ((0, 0), w')) /\
  (exists used released again w',
     context_reuse parent buf ops parent' buf' w
       = Some ((used, released, again), w') /\
     released.1 = {| Context := None; buffer := None; values := values used.1 |} /\
     released.2 = survivors used.2 /\
     again.1 = {| Context := Some (default Background parent'); buffer := buf';
                  values := values again.1 |} /\
     survivors again.2 = again.2) /\
  (forall m, router_context.clear m = survivors m) /\
  (exists w',
     context_reuse None None [OpSet (VFloat64 NaN) (VInt 1)] None None
       (set_picks [None; Some 0%nat] World0)
     = Some (({| Context := Some Background; buffer := None; values := 1%positive |},
              [(VFloat64 NaN, VInt 1)],
              ({| Context := None; buffer := None; values := 1%positive |},
               [(VFloat64 NaN, VInt 1)]),
              ({| Context := Some Background; buffer := None; values := 1%positive |},
               [(VFloat64 NaN, VInt 1)])), w')).
Proof.
  intros HNew Hidle Hok Hready Hops. split; [|split; [|split]].
  - destruct (Acquire_empty p w HNew Hidle)
      as (l & p1 & w1 & Hacq & Hl & HNew1 & Hidle1).
    destruct (write_then_Release p1 l payload w1 _ Hl Hidle1)
      as (w2 & p2 & w3 & Hwr & Hrel & Hl3 & _ & HNew2 & Hidle3).
    destruct (Acquire_empty p2 w3) as (l' & p3 & w4 & Hacq' & Hl' & _ & _);
      [congruence|exact Hidle3|].
    exists w4. unfold buffer_reuse.
    unfold bind at 1. rewrite Hacq. cbn [fst snd].
    unfold bind at 1. rewrite Hwr.
    unfold bind at 1. rewrite Hrel.
    unfold bind at 1. unfold read_buffer at 1. rewrite Hl3.
    unfold bind at 1. rewrite Hacq'. cbn [fst snd].
    unfold bind, read_buffer. rewrite Hl'. reflexivity.
  - destruct (NewContext_fresh_store parent buf w Hok)
      as (c & vl & w1 & Hnew & Hc & _ & Hok1 & _ & _ & Hr1).
    destruct (Hr1 Hready) as [Hvl _].
    destruct (apply_ops_total ops c _ w1 Hc Hvl Hops) as [w2 Hrun].
    destruct (apply_ops_inv ops c _ w1 w2 Hc Hrun) as (Hcs & _ & Hp & _).
    assert (Hc2 : contexts w2 !! c
                  = Some {| Context := Some (default Background parent);
                            buffer := buf; values := vl |}) by congruence.
    assert (Hok2 : world_ok w2).
    { destruct Hok1 as [HN Hall]. split; [congruence|].
      intros x Hx. rewrite Hcs. apply Hall. congruence. }
    destruct (Reset_clears c _ w2 Hc2) as (w3 & Hreset & Hc3 & He3 & _ & Hok3 & _).
    destruct (NewContext_fresh_store parent' buf' w3 (Hok3 Hok2))
      as (c' & vl' & w4 & Hnew' & Hc' & He' & _).
    eexists _, _, _, w4. split.
    { unfold context_reuse.
      unfold bind at 1. rewrite Hnew.
      unfold bind at 1. rewrite Hrun.
      unfold bind at 1. rewrite (snapshot_run c _ w2 Hc2).
      unfold bind at 1. rewrite Hreset.
      unfold bind at 1. rewrite (snapshot_run c _ w3 Hc3).
      unfold bind at 1. rewrite Hnew'.
      unfold bind at 1. rewrite (snapshot_run c' _ w4 Hc'). reflexivity. }
    cbn [fst snd values]. split; [reflexivity|]. split; [exact He3|].
    split; [reflexivity|exact He'].
  - exact clear_survivors.
  - eexists. vm_compute. reflexivity.
Qed.


(** ** Router: the terminal handler *)

Lemma first_match_wins_aux (pre post : list router.routeEntry)
    (e : router.routeEntry) (ctx : loc) (w w1 w2 : World) :
  misses pre ctx w = Some w1 ->
  router.matcher e ctx w1 = Some (true, w2) ->
  router.scan (pre ++ e :: post) ctx w = router.handler e ctx w2.
Proof.
  revert w. induction pre as [|e0 pre IH]; intros w Hmiss Hhit.
  - cbn in Hmiss. injection Hmiss as <-.
    cbn [app router.scan]. unfold bind. rewrite Hhit. reflexivity.
  - cbn [misses] in Hmiss. cbn [app router.scan]. unfold bind at 1.
    destruct (router.matcher e0 ctx w) as [[[|] w']|]; try discriminate.
    apply IH; assumption.
Qed.


(** ** Router: composing the chain *)

Lemma wrap_from_take (mws : list router.MiddlewareFunc) (n : nat) (h : router.chain) :
  (n <= length mws)%nat ->
  router.wrap_from mws n h = foldr router.wrapper h (take n mws).
Proof.
  revert h. induction n as [|i IH]; intros h Hn.
  - reflexivity.
  - cbn [router.wrap_from].
    destruct (lookup_lt_is_Some_2 mws i) as [m Hm]; [lia|].
    rewrite Hm, IH by lia.
    rewrite (take_S_r _ _ _ Hm), foldr_app. reflexivity.
Qed.

Lemma wrap_from_all (mws : list router.MiddlewareFunc) :
  router.wrap_from mws (length mws) router.baseHandler = chain_of mws.
Proof.
  rewrite wrap_from_take by lia. rewrite firstn_all. reflexivity.
Qed.

Lemma call_chain_of (r : router.routerImpl) (mws : list router.MiddlewareFunc) :
  router.call r (chain_of mws) = onion mws (router.scan (router.routes r)).
Proof.
  induction mws as [|m rest IH].
  - reflexivity.
  - cbn [chain_of foldr router.call onion]. fold (chain_of rest).
    rewrite IH. reflexivity.
Qed.

Lemma buildHandlerChain_coherent (r : router.routerImpl) :
  coherent r ->
  router.buildHandlerChain r = (chain_of (router.middlewares r), cleaned r).
Proof.
  intros Hcoh. unfold router.buildHandlerChain.
  destruct (router.dirty r) eqn:Hd; cbn [negb].
  - destruct (router.middlewares r) as [|m rest] eqn:Hm.
    + cbn. unfold cleaned. rewrite Hm. reflexivity.
    + cbn [length Nat.eqb]. rewrite wrap_from_all. unfold cleaned.
      rewrite Hm. reflexivity.
  - destruct (router.handlerChain r) as [c|] eqn:Hc.
    + pose proof (Hcoh Hd c Hc) as ->. unfold cleaned.
      destruct r; cbn in *. subst. reflexivity.
    + destruct (router.middlewares r) as [|m rest] eqn:Hm.
      * cbn. unfold cleaned. rewrite Hm. reflexivity.
      * cbn [length Nat.eqb]. rewrite wrap_from_all. unfold cleaned.
        rewrite Hm. reflexivity.
Qed.

Lemma cleaned_coherent (r : router.routerImpl) : coherent (cleaned r).
Proof. intros _ c Hc. cbn in Hc. injection Hc as <-. reflexivity. Qed.

Lemma reachable_coherent (r : router.routerImpl) : reachable r -> coherent r.
Proof.
  induction 1 as [|r m h _ _|r pattern h _ _|r mws _ _|r _ IH].
  - intros _ c Hc. discriminate.
  - intros Hd. discriminate.
  - intros Hd. discriminate.
  - intros Hd. discriminate.
  - rewrite (buildHandlerChain_coherent r IH). apply cleaned_coherent.
Qed.

Lemma Route_dispatch (r : router.routerImpl) parent buf (w : World) :
  router.Route r parent buf w =
  (do res <- dispatch (router.buildHandlerChain r).2
               (router.buildHandlerChain r).1 parent buf;
   ret (res, (router.buildHandlerChain r).2)) w.
Proof.
  unfold router.Route, dispatch.
  destruct (router.buildHandlerChain r) as [h r']. cbn [fst snd].
  unfold bind.
  destruct (router_context.NewContext parent buf w) as [[c w0]|]; [|reflexivity].
  destruct (router.call r' h c w0) as [[err w1]|]; [|reflexivity].
  destruct (router_context.Reset c w1) as [[[] w2]|]; reflexivity.
Qed.

Lemma Route_coherent (r : router.routerImpl) parent buf (w : World) :
  coherent r ->
  router.Route r parent buf w =
  (do res <- dispatch (cleaned r) (chain_of (router.middlewares r)) parent buf;
   ret (res, cleaned r)) w.
Proof.
  intros Hcoh. rewrite Route_dispatch, (buildHandlerChain_coherent r Hcoh).
  reflexivity.
Qed.

Lemma logged_logged (l1 l2 : list string) (w : World) :
  logged l2 (logged l1 w) = logged (l1 ++ l2) w.
Proof. unfold logged, set_callOrder. cbn. rewrite app_assoc. reflexivity. Qed.

Lemma logged_nil (w : World) : logged [] w = w.
Proof. destruct w. unfold logged, set_callOrder. cbn. rewrite app_nil_r. reflexivity. Qed.

Lemma onion_traced (names : list string) (h : router.HandlerFunc) (ctx : loc) (w : World) :
  onion (map traced names) h ctx w =
  match h ctx (logged (map (fun n => n +:+ "-before") names) w) with
  | Some (err, w') =>
      Some (err, logged (rev (map (fun n => n +:+ "-after") names)) w')
  | None => None
  end.
Proof.
  revert w. induction names as [|n rest IH]; intros w.
  - cbn [map rev onion foldr]. rewrite logged_nil.
    destruct (h ctx w) as [[err w']|]; [|reflexivity].
    rewrite logged_nil. reflexivity.
  - cbn [map onion foldr]. fold (onion (map traced rest) h).
    unfold traced at 1. unfold bind at 1. unfold record at 1, modify at 1.
    fold (logged [n +:+ "-before"] w).
    unfold bind at 1. rewrite IH, logged_logged. cbn [app].
    destruct (h ctx _) as [[err w']|]; [|reflexivity].
    unfold bind, record, modify, ret.
    fold (logged [n +:+ "-after"] (logged (rev (map (fun n => n +:+ "-after") rest)) w')).
    rewrite logged_logged. reflexivity.
Qed.

(** C3: the chain a router builds nests its middleware around the
    terminal handler with the first-registered outermost; for
    middleware that record a call before and after [next], the record
    holds the before-marks in registration order, then what the handler
    reached by the terminal handler does, then the after-marks in
    reverse order: for [M1; M2] that is M1-before, M2-before, H,
    M2-after, M1-after. *)
Theorem onion_order (r : router.routerImpl) (names : list string)
    (ctx : loc) (w : World) :
  coherent r ->
  router.call (router.buildHandlerChain r).2 (router.buildHandlerChain r).1
  = onion (router.middlewares r) (router.scan (router.routes r)) /\
  (router.middlewares r = map traced names ->
   router.call (router.buildHandlerChain r).2 (router.buildHandlerChain r).1 ctx w =
   match router.scan (router.routes r) ctx
           (logged (map (fun n => n +:+ "-before") names) w) with
   | Some (err, w') =>
       Some (err, logged (rev (map (fun n => n +:+ "-after") names)) w')
   | None => None
   end).
Proof.
  intros Hcoh. rewrite (buildHandlerChain_coherent r Hcoh). cbn [fst snd].
  rewrite call_chain_of. cbn [router.routes cleaned].
  split; [reflexivity|].
  intros ->. apply onion_traced.
Qed.

(** ** Router: the cached chain *)

Lemma Reset_total (c : loc) (w : World) :
  is_Some (contexts w !! c) ->
  exists w', router_context.Reset c w = Some (tt, w').
Proof.
  intros [ci Hc]. eexists.
  unfold router_context.Reset, router_context.load, router_context.store,
    router_context.contextPool_Put, bind, modify, gets.
  rewrite Hc. reflexivity.
Qed.

(** C1: with the route table [pre ++ e :: post], when the matchers of
    [pre], evaluated in registration order, all return false and the
    matcher of [e] then returns true, the terminal handler does exactly
    what the handler of [e] does from there and returns what it returns:
    no handler of [pre] and nothing of [post] takes part.  With no
    middleware registered, that return value is the error [Route]
    returns. *)
Theorem first_match_wins (r : router.routerImpl)
    (pre post : list router.routeEntry) (e : router.routeEntry)
    (ctx : loc) (w w1 w2 : World) :
  router.routes r = pre ++ e :: post ->
  misses pre ctx w = Some w1 ->
  router.matcher e ctx w1 = Some (true, w2) ->
  router.call r router.baseHandler ctx w = router.handler e ctx w2 /\
  (forall parent buf w_in err w3,
     coherent r ->
     router.middlewares r = [] ->
     router_context.NewContext parent buf w_in = Some (ctx, w) ->
     router.handler e ctx w2 = Some (err, w3) ->
     is_Some (contexts w3 !! ctx) ->
     exists w',
       router_context.Reset ctx w3 = Some (tt, w') /\
       router.Route r parent buf w_in = Some ((buf, err), cleaned r, w')).
Proof.
  intros Hr Hmiss Hhit.
  assert (Hscan : router.scan (router.routes r) ctx w = router.handler e ctx w2).
  { rewrite Hr. apply (first_match_wins_aux pre post e ctx w w1 w2); assumption. }
  split; [exact Hscan|].
  intros parent buf w_in err w3 Hcoh Hmw HNew Hh Hctx.
  destruct (Reset_total ctx w3 Hctx) as [w' HReset].
  exists w'. split; [exact HReset|].
  rewrite (Route_coherent r parent buf w_in Hcoh), Hmw.
  unfold dispatch. cbn [chain_of foldr]. unfold bind at 1 2. rewrite HNew.
  unfold bind at 1. cbn [router.call cleaned router.routes].
  rewrite Hscan, Hh. unfold bind, ret. rewrite HReset. reflexivity.
Qed.



Lemma Route_leaves_cleaned (r : router.routerImpl) parent buf (w : World)
    res r1 w1 :
  coherent r ->
  router.Route r parent buf w = Some ((res, r1), w1) ->
  r1 = cleaned r.
Proof.
  intros Hcoh. rewrite (Route_coherent r parent buf w Hcoh). unfold bind, ret.
  destruct (dispatch _ _ _ _ w) as [[res' w']|]; [|discriminate].
  intros H. injection H as _ <- _. reflexivity.
Qed.

(** C4: after a [Route] the router is clean and holds the chain of its
    middleware; [Register], [Match] and [Use] each mark it dirty; the
    next [Route] then rebuilds: after [Register] (and [Match], which is
    a [Register]) it dispatches over the table with the new route last,
    whose handler the terminal handler invokes when no earlier route
    matches, and after [Use] through the chain with the new middleware
    innermost; a [Route] on the clean router returns the cached chain
    and leaves the router as it is. *)
Theorem mutation_rebuilds_chain (r : router.routerImpl) parent buf (w : World)
    res r1 w1 :
  coherent r ->
  router.Route r parent buf w = Some ((res, r1), w1) ->
  (router.dirty r1 = false /\
   router.handlerChain r1 = Some (chain_of (router.middlewares r))) /\
  ((forall m h, router.dirty (router.Register r1 m h) = true) /\
   (forall pattern h, router.dirty (router.Match r1 pattern h) = true) /\
   (forall mws, router.dirty (router.Use r1 mws) = true)) /\
  (forall m h,
     let r2 := router.Register r1 m h in
     router.routes (cleaned r2)
       = router.routes r ++ [{| router.matcher := m; router.handler := h |}] /\
     (forall p b w',
        router.Route r2 p b w' =
        (do res <- dispatch (cleaned r2) (chain_of (router.middlewares r)) p b;
         ret (res, cleaned r2)) w') /\
     (forall ctx wa wb wc,
        misses (router.routes r) ctx wa = Some wb ->
        m ctx wb = Some (true, wc) ->
        router.call (cleaned r2) router.baseHandler ctx wa = h ctx wc)) /\
  (forall pattern h,
     router.Match r1 pattern h
     = router.Register r1 (last_matcher (router.Match r1 pattern h)) h) /\
  (forall mws,
     let r2 := router.Use r1 mws in
     router.handlerChain (router.buildHandlerChain r2).2
       = Some (chain_of (router.middlewares r ++ mws)) /\
     (forall p b w',
        router.Route r2 p b w' =
        (do res <- dispatch (cleaned r2) (chain_of (router.middlewares r ++ mws)) p b;
         ret (res, cleaned r2)) w') /\
     router.call (cleaned r2) (chain_of (router.middlewares r ++ mws))
       = onion (router.middlewares r ++ mws) (router.scan (router.routes r))) /\
  (router.buildHandlerChain r1 = (chain_of (router.middlewares r), r1) /\
   forall p b w',
     router.Route r1 p b w' =
     (do res <- dispatch r1 (chain_of (router.middlewares r)) p b;
      ret (res, r1)) w').
Proof.
  intros Hcoh HRoute.
  pose proof (Route_leaves_cleaned r parent buf w res r1 w1 Hcoh HRoute) as ->.
  split; [split; reflexivity|].
  split; [repeat split|].
  split.
  { intros m h r2. split; [reflexivity|]. split.
    - intros p b w'. apply (Route_coherent r2 p b w'). intros Hd. discriminate.
    - intros ctx wa wb wc Hmiss Hhit.
      apply (first_match_wins_aux (router.routes r) []
               {| router.matcher := m; router.handler := h |} ctx wa wb wc);
        assumption. }
  split.
  { intros pattern h. unfold last_matcher, router.Match, router.Register.
    cbn [router.routes]. rewrite last_snoc. reflexivity. }
  split.
  { intros mws r2. split.
    - rewrite buildHandlerChain_coherent; [reflexivity|].
      intros Hd. discriminate.
    - split.
      + intros p b w'. apply (Route_coherent r2 p b w'). intros Hd. discriminate.
      + apply (call_chain_of (cleaned r2)). }
  split; [reflexivity|].
  intros p b w'. rewrite Route_dispatch. reflexivity.
Qed.

Lemma Route_returns_buffer (r : router.routerImpl) parent buf (w : World)
    res r' w' :
  router.Route r parent buf w = Some ((res, r'), w') -> res.1 = buf.
Proof.
  rewrite Route_dispatch. unfold dispatch, bind, ret.
  destruct (router_context.NewContext parent buf w) as [[c w0]|]; [|discriminate].
  destruct (router.call _ _ c w0) as [[err wa]|]; [|discriminate].
  destruct (router_context.Reset c wa) as [[[] wb]|]; [|discriminate].
  intros H. injection H as <- _ _. reflexivity.
Qed.



(** ** The properties at concrete inputs *)

Lemma world_ok_World0 : world_ok World0.
Proof. split; [reflexivity|]. intros l Hl. cbn in Hl. inversion Hl. Qed.




Lemma reacquired_keeps_NaN_keys_witness :
  (exists w', buffer_reuse one_idle (bytes_of "payload") world_one_idle
              = Some ((0, 0), w')) /\
  (exists used released again w',
     context_reuse None (Some 1%positive) [OpSet (VString "user") (VInt 7)]
       None None world_one_idle
       = Some ((used, released, again), w') /\
     released.1 = {| Context := None; buffer := None; values := values used.1 |} /\
     released.2 = survivors used.2 /\
     again.1 = {| Context := Some (default Background None); buffer := None;
                  values := values again.1 |} /\
     survivors again.2 = again.2).
Proof.
  destruct (reacquired_keeps_NaN_keys one_idle world_one_idle (bytes_of "payload")
              None None (Some 1%positive) None [OpSet (VString "user") (VInt 7)])
    as (Ha & Hb & _).
  - reflexivity.
  - intros l Hl. cbn in Hl. apply list_elem_of_singleton in Hl. subst l.
    exists buffer.NewBuffer. split; [vm_compute|]; reflexivity.
  - split; [reflexivity|]. intros l Hl. cbn in Hl. inversion Hl.
  - intros l Hl. cbn in Hl. inversion Hl.
  - repeat constructor.
  - split; assumption.
Defined.

Lemma first_match_wins_witness :
  router.call traced_routes router.baseHandler 1%positive World0
  = Some (Some "failed", logged ["match0"; "match1"; "handler1"] World0).
Proof.
  rewrite (proj1 (first_match_wins traced_routes
             [{| router.matcher := tracedMatcher "match0" false;
                 router.handler := tracedHandler "handler0" None |}]
             [{| router.matcher := tracedMatcher "match2" true;
                 router.handler := tracedHandler "handler2" None |}]
             {| router.matcher := tracedMatcher "match1" true;
                router.handler := tracedHandler "handler1" (Some "failed") |}
             1%positive World0
             (logged ["match0"] World0)
             (logged ["match0"; "match1"] World0)
             eq_refl eq_refl eq_refl)).
  reflexivity.
Defined.

Lemma onion_order_witness :
  callOrder <$> (snd <$>
    router.call (router.buildHandlerChain two_middlewares).2
      (router.buildHandlerChain two_middlewares).1 1%positive World0)
  = Some ["M1-before"; "M2-before"; "H"; "M2-after"; "M1-after"].
Proof.
  assert (Hcoh : coherent two_middlewares) by (intros Hd; discriminate).
  rewrite (proj2 (onion_order two_middlewares ["M1"; "M2"] 1%positive World0 Hcoh)
             eq_refl).
  reflexivity.
Defined.

Lemma mutation_rebuilds_chain_witness :
  exists r1,
    router.dirty r1 = false /\
    router.dirty (router.Register r1 (mockMatcher true) okHandler) = true /\
    router.buildHandlerChain r1 = (chain_of (router.middlewares two_middlewares), r1).
Proof.
  assert (Hcoh : coherent two_middlewares) by (intros Hd; discriminate).
  destruct (router.Route two_middlewares None (Some 1%positive) (world_with []))
    as [[[res r1] w1]|] eqn:HRoute.
  - exists r1.
    destruct (mutation_rebuilds_chain two_middlewares None (Some 1%positive)
                (world_with []) res r1 w1 Hcoh HRoute)
      as ((Hd & _) & (HReg & _) & _ & _ & _ & (Hbuild & _)).
    split; [exact Hd|]. split; [apply HReg|exact Hbuild].
  - vm_compute in HRoute. discriminate.
Defined.



(** The tests' scenarios. *)

Example two_matching_routes_first_only :
  callOrder <$> (snd <$>
    router.Route three_routes (Some Background) (Some 1%positive) (world_with []))
  = Some ["handler1"].
Proof. vm_compute. reflexivity. Qed.

Example matchers_in_order_until_first_hit :
  (fun x => (x.1.1, callOrder x.2)) <$>
    router.Route traced_routes (Some Background) (Some 1%positive) (world_with [])
  = Some ((Some 1%positive, Some "failed"), ["match0"; "match1"; "handler1"]).
Proof. vm_compute. reflexivity. Qed.

Example contains_form_not_dispatched :
  (fun x => (x.1.1, callOrder x.2)) <$>
    router.Route contains_World (Some Background) (Some 1%positive) world_hello
  = Some ((Some 1%positive, None), []).
Proof. vm_compute. reflexivity. Qed.

Example middleware_call_order :
  callOrder <$> (snd <$>
    router.Route two_middlewares (Some Background) (Some 1%positive) (world_with []))
  = Some ["M1-before"; "M2-before"; "H"; "M2-after"; "M1-after"].
Proof. vm_compute. reflexivity. Qed.

Example deny_all_returns_error :
  fst <$> (fst <$>
    router.Route deny_all None (Some 1%positive) (world_with []))
  = Some (Some 1%positive, Some "denied").
Proof. vm_compute. reflexivity. Qed.

Example manager_Release_nil_panics :
  manage.Release manage.NewBufferManager None World0 = None.
Proof. reflexivity. Qed.

Example pool_Release_nil_returns :
  pool.Release pool.NewPool None World0 = Some (pool.NewPool, World0).
Proof. reflexivity. Qed.

(** * Further properties of the code *)

(** ** The built-in matchers *)

Lemma payload_of (w : World) (ctx : loc) (data : list byte) :
  holds_payload w ctx data -> router.payload ctx w = Some (data, w).
Proof.
  intros (ci & b & bi & Hc & Hb & Hbi & <-).
  unfold router.payload, router_context.Buffer, router_context.load, bind, ret.
  rewrite Hc, Hb. unfold read_buffer. rewrite Hbi. reflexivity.
Qed.

Lemma HasPrefix_prefix_of (s p : list byte) :
  bytes.HasPrefix s p = true <-> p `prefix_of` s.
Proof.
  unfold bytes.HasPrefix. rewrite andb_true_iff, bool_decide_eq_true, Nat.leb_le.
  split.
  - intros [_ H]. exists (drop (length p) s).
    rewrite <- H at 1. symmetry. apply take_drop.
  - intros [k ->]. rewrite length_app. split; [lia|].
    rewrite take_app_length. reflexivity.
Qed.

Lemma HasSuffix_suffix_of (s p : list byte) :
  bytes.HasSuffix s p = true <-> p `suffix_of` s.
Proof.
  unfold bytes.HasSuffix. rewrite andb_true_iff, bool_decide_eq_true, Nat.leb_le.
  split.
  - intros [_ H]. exists (take (length s - length p) s).
    rewrite <- H at 2. symmetry. apply take_drop.
  - intros [k ->]. rewrite length_app. split; [lia|].
    replace (length k + length p - length p)%nat with (length k) by lia.
    rewrite drop_app_length. reflexivity.
Qed.

Lemma Contains_occurs_in (b sub : list byte) :
  bytes.Contains b sub = true <-> occurs_in sub b.
Proof.
  induction b as [|x rest IH].
  - cbn [bytes.Contains]. rewrite orb_false_r, HasPrefix_prefix_of. split.
    + intros [k Hk]. exists [], k. exact Hk.
    + intros (l1 & l2 & H). symmetry in H.
      apply app_eq_nil in H as [-> H]. apply app_eq_nil in H as [-> ->].
      exists []. reflexivity.
  - cbn [bytes.Contains]. rewrite orb_true_iff, HasPrefix_prefix_of, IH. split.
    + intros [[k Hk]|(l1 & l2 & H)].
      * exists [], k. exact Hk.
      * exists (x :: l1), l2. rewrite H. reflexivity.
    + intros (l1 & l2 & H). destruct l1 as [|y l1].
      * left. exists l2. exact H.
      * right. injection H as -> H. exists l1, l2. exact H.
Qed.

(** X1: on a context whose buffer holds [data], [PrefixMatcher(prefix)]
    answers true exactly when [data] begins with the bytes of [prefix],
    and leaves the world as it is. *)
Theorem PrefixMatcher_spec (w : World) (ctx : loc) (data : list byte)
    (prefix : string) :
  holds_payload w ctx data ->
  exists r, router.PrefixMatcher prefix ctx w = Some (r, w) /\
            (r = true <-> bytes_of prefix `prefix_of` data).
Proof.
  intros H. unfold router.PrefixMatcher, bind. rewrite (payload_of w ctx data H).
  eexists. split; [reflexivity|].
  rewrite andb_true_iff, Nat.leb_le, HasPrefix_prefix_of. split; [tauto|].
  intros Hp. split; [|exact Hp]. destruct Hp as [k ->]. rewrite length_app. lia.
Qed.

(** X2: [SuffixMatcher(suffix)] answers true exactly when the payload
    ends with the bytes of [suffix], and leaves the world as it is. *)
Theorem SuffixMatcher_spec (w : World) (ctx : loc) (data : list byte)
    (suffix : string) :
  holds_payload w ctx data ->
  exists r, router.SuffixMatcher suffix ctx w = Some (r, w) /\
            (r = true <-> bytes_of suffix `suffix_of` data).
Proof.
  intros H. unfold router.SuffixMatcher, bind. rewrite (payload_of w ctx data H).
  eexists. split; [reflexivity|].
  rewrite andb_true_iff, Nat.leb_le, HasSuffix_suffix_of. split; [tauto|].
  intros Hp. split; [|exact Hp]. destruct Hp as [k ->]. rewrite length_app. lia.
Qed.

(** X3: [ContainsMatcher(substring)] answers true exactly when the
    bytes of [substring] occur consecutively somewhere in the payload,
    and leaves the world as it is. *)
Theorem ContainsMatcher_spec (w : World) (ctx : loc) (data : list byte)
    (substring : string) :
  holds_payload w ctx data ->
  exists r, router.ContainsMatcher substring ctx w = Some (r, w) /\
            (r = true <-> occurs_in (bytes_of substring) data).
Proof.
  intros H. unfold router.ContainsMatcher, bind. rewrite (payload_of w ctx data H).
  eexists. split; [reflexivity|].
  rewrite andb_true_iff, Nat.leb_le, Contains_occurs_in. split; [tauto|].
  intros Hp. split; [|exact Hp]. destruct Hp as (l1 & l2 & ->).
  rewrite !length_app. lia.
Qed.

(** X4: the three built-in matchers accept every payload, the empty one
    included, when their pattern is empty, and reject every payload
    shorter than their pattern. *)
Theorem matchers_empty_and_short (w : World) (ctx : loc) (data : list byte)
    (pattern : string) :
  holds_payload w ctx data ->
  (router.PrefixMatcher "" ctx w = Some (true, w) /\
   router.SuffixMatcher "" ctx w = Some (true, w) /\
   router.ContainsMatcher "" ctx w = Some (true, w)) /\
  ((length data < length (bytes_of pattern))%nat ->
   router.PrefixMatcher pattern ctx w = Some (false, w) /\
   router.SuffixMatcher pattern ctx w = Some (false, w) /\
   router.ContainsMatcher pattern ctx w = Some (false, w)).
Proof.
  intros H. split.
  - unfold router.PrefixMatcher, router.SuffixMatcher, router.ContainsMatcher, bind.
    rewrite (payload_of w ctx data H). cbn [bytes_of String.list_byte_of_string].
    unfold ret, bytes.HasPrefix, bytes.HasSuffix. cbn [length Nat.leb andb take].
    rewrite Nat.sub_0_r, drop_all.
    rewrite !bool_decide_eq_true_2 by reflexivity.
    repeat split. destruct data; cbn; unfold bytes.HasPrefix; reflexivity.
  - intros Hlt.
    unfold router.PrefixMatcher, router.SuffixMatcher, router.ContainsMatcher, bind.
    rewrite (payload_of w ctx data H). unfold ret.
    assert (Hleb : (length (bytes_of pattern) <=? length data)%nat = false)
      by (apply Nat.leb_gt; exact Hlt).
    rewrite Hleb. repeat split.
Qed.

(** X5: routing a nil buffer through a router whose first route was
    registered with [Match], and that has no middleware, panics: the
    matcher calls [Get] on the nil buffer. *)
Theorem Route_nil_buffer_panics (r : router.routerImpl) (pattern : string)
    (h : router.HandlerFunc) (parent : option stdContext) (w : World) :
  router.routes r = [] ->
  router.middlewares r = [] ->
  world_ok w ->
  router.Route (router.Match r pattern h) parent None w = None.
Proof.
  intros Hr Hm Hok.
  rewrite Route_coherent by (intros Hd; discriminate).
  destruct (NewContext_fresh_store parent None w Hok)
    as (c & vl & w0 & HNew & Hc & _).
  unfold dispatch. cbn [router.middlewares router.Match router.Register].
  rewrite Hm. cbn [chain_of foldr]. unfold bind at 1 2. rewrite HNew.
  cbn [router.call cleaned router.routes router.Match router.Register].
  rewrite Hr. cbn [app router.scan router.matcher].
  unfold bind at 1 2. unfold router.payload, router_context.Buffer,
    router_context.load, bind. rewrite Hc. reflexivity.
Qed.

Lemma Route_nil_buffer_panics_witness :
  router.Route (router.Match router.NewRouter "Hello" okHandler)
    (Some Background) None World0 = None.
Proof.
  apply (Route_nil_buffer_panics router.NewRouter "Hello" okHandler
           (Some Background) World0 eq_refl eq_refl).
  split; [reflexivity|]. intros l Hl. cbn in Hl. inversion Hl.
Defined.

(** ** The value store *)

Lemma Get_fst (c : loc) (ci : contextImpl) (k : key) (w : World) :
  contexts w !! c = Some ci -> hashable k = true ->
  fst <$> router_context.Get c k w = Some (gomap.get (entries w (values ci)) k).
Proof. intros Hc Hk. rewrite (Get_run c ci k w Hc Hk). reflexivity. Qed.

(** X6: on a context whose map is allocated, with a key that cannot be
    hashed (a slice, a map, a function) [Set], [Get] and [Delete] panic.
    With a key that can be hashed [Set(k, v)] returns, and then: [Get]
    returns [v] when [k] is equal to itself and nil when it is not (a
    NaN); a key not equal to [k] reads as it did; a second [Set] on [k]
    wins over the first; after [Delete(k)] the key reads as nil, the
    keys not equal to [k] read as they did, and for a NaN the map is as
    it was. *)
Theorem Set_then_Get (w : World) (c : loc) (ci : contextImpl)
    (m : list (key * any)) (k : key) (v v2 : any) :
  contexts w !! c = Some ci ->
  maps w !! values ci = Some m ->
  (hashable k = false ->
   router_context.Set_ c k v w = None /\
   router_context.Get c k w = None /\
   router_context.Delete c k w = None) /\
  (hashable k = true ->
   exists w1,
     router_context.Set_ c k v w = Some (tt, w1) /\
     (reflexive k = true -> router_context.Get c k w1 = Some (v, w1)) /\
     (reflexive k = false -> router_context.Get c k w1 = Some (VNil, w1)) /\
     (forall k', hashable k' = true -> key_eq k k' = false ->
        fst <$> router_context.Get c k' w1 = fst <$> router_context.Get c k' w) /\
     (exists w2, router_context.Set_ c k v2 w1 = Some (tt, w2) /\
                 (reflexive k = true -> router_context.Get c k w2 = Some (v2, w2))) /\
     (exists w3, router_context.Delete c k w1 = Some (tt, w3) /\
                 router_context.Get c k w3 = Some (VNil, w3) /\
                 (forall k', hashable k' = true -> key_eq k k' = false ->
                    fst <$> router_context.Get c k' w3
                    = fst <$> router_context.Get c k' w) /\
                 (reflexive k = false ->
                    maps w3 !! values ci = maps w1 !! values ci))).
Proof.
  intros Hc Hm. split; [apply unhashable_panics|]. intros Hk.
  set (w1 := set_maps (insert (values ci) (gomap.set m k v)) w).
  assert (Hc1 : contexts w1 !! c = Some ci) by exact Hc.
  assert (Hm1 : maps w1 !! values ci = Some (gomap.set m k v)).
  { cbn. apply lookup_insert_eq. }
  assert (He1 : entries w1 (values ci) = gomap.set m k v).
  { unfold entries. rewrite Hm1. reflexivity. }
  assert (He : entries w (values ci) = m).
  { unfold entries. rewrite Hm. reflexivity. }
  exists w1. split; [apply (Set_run c ci m k v w Hc Hm Hk)|].
  split. { intros Hr. rewrite (Get_run c ci k w1 Hc1 Hk), He1, get_set_eq; auto. }
  split. { intros Hr. rewrite (Get_run c ci k w1 Hc1 Hk), get_irreflexive; auto. }
  split.
  { intros k' Hk' Hne.
    rewrite (Get_fst c ci k' w1 Hc1 Hk'), (Get_fst c ci k' w Hc Hk'), He1, He.
    rewrite get_set_ne by exact Hne. reflexivity. }
  split.
  - eexists. split; [apply (Set_run c ci _ k v2 w1 Hc1 Hm1 Hk)|].
    intros Hr. erewrite Get_run; [|exact Hc|exact Hk].
    unfold entries. cbn [maps set_maps]. rewrite lookup_insert_eq. cbn.
    rewrite get_set_eq; auto.
  - eexists. split; [apply (Delete_run c ci k w1 Hc1 Hk)|].
    split.
    { erewrite Get_run; [|exact Hc|exact Hk].
      unfold entries. cbn [maps set_maps w1].
      rewrite lookup_alter_eq, lookup_insert_eq. cbn.
      rewrite get_delete_eq. reflexivity. }
    split.
    { intros k' Hk' Hne. erewrite Get_fst; [|exact Hc|exact Hk'].
      rewrite (Get_fst c ci k' w Hc Hk'), He.
      unfold entries. cbn [maps set_maps w1].
      rewrite lookup_alter_eq, lookup_insert_eq. cbn.
      rewrite get_delete_ne, get_set_ne by exact Hne. reflexivity. }
    intros Hr. cbn [maps set_maps w1].
    rewrite lookup_alter_eq, lookup_insert_eq. cbn.
    rewrite delete_irreflexive by exact Hr. reflexivity.
Qed.

Lemma Set_then_Get_witness :
  exists w1,
    router_context.Set_ 1%positive (VString "user") (VInt 8) world_with_value
      = Some (tt, w1) /\
    router_context.Get 1%positive (VString "user") w1 = Some (VInt 8, w1).
Proof.
  destruct (Set_then_Get world_with_value 1%positive
              {| Context := Some Background; buffer := Some 1%positive;
                 values := 1%positive |}
              [(VString "user", VInt 7)] (VString "user") (VInt 8) (VInt 9))
    as (_ & Hrun); [reflexivity|reflexivity|].
  destruct (Hrun eq_refl) as (w1 & HSet & HGet & _).
  exists w1. split; [exact HSet|]. apply HGet. reflexivity.
Defined.

(** What the typed getters return on a value. *)
Lemma typed_getters_on (c : loc) (k : key) (w : World) (v : any) :
  router_context.Get c k w = Some (v, w) ->
  router_context.GetString c k w
    = Some (match v with VString s => (s, true) | _ => (String.EmptyString, false) end, w) /\
  router_context.GetInt c k w
    = Some (match v with VInt i => (i, true) | _ => (0, false) end, w) /\
  router_context.GetInt64 c k w
    = Some (match v with VInt64 i => (i, true) | _ => (0, false) end, w) /\
  router_context.GetBool c k w
    = Some (match v with VBool b => (b, true) | _ => (false, false) end, w) /\
  router_context.GetFloat64 c k w
    = Some (match v with VFloat64 f => (f, true) | _ => (0, false) end, w) /\
  router_context.GetBytes c k w
    = Some (match v with VBytes b => (b, true) | _ => ([], false) end, w) /\
  router_context.GetTime c k w
    = Some (match v with VTime t => (t, true) | _ => (0, false) end, w).
Proof.
  intros HGet.
  unfold router_context.GetString, router_context.GetInt, router_context.GetInt64,
    router_context.GetBool, router_context.GetFloat64, router_context.GetBytes,
    router_context.GetTime, bind.
  rewrite HGet. repeat split; destruct v; reflexivity.
Qed.

(** X7: the typed getters on a context whose map is allocated.  With a
    key that cannot be hashed each of them panics.  After [Set(k, v)]
    with a key that can be hashed and is equal to itself, the getter of
    [v]'s own type returns [v] with true and every other getter its
    zero value with false: an [int] is not an [int64].  On a key that
    reads as nil (one that is absent, or a NaN even just set) they all
    return false. *)
Theorem typed_getters_discriminate (w : World) (c : loc) (ci : contextImpl)
    (m : list (key * any)) (k : key) (v : any) :
  contexts w !! c = Some ci ->
  maps w !! values ci = Some m ->
  (hashable k = false ->
   router_context.GetString c k w = None /\
   router_context.GetInt c k w = None /\
   router_context.GetInt64 c k w = None /\
   router_context.GetBool c k w = None /\
   router_context.GetFloat64 c k w = None /\
   router_context.GetBytes c k w = None /\
   router_context.GetTime c k w = None) /\
  (hashable k = true ->
   exists w1,
     router_context.Set_ c k v w = Some (tt, w1) /\
     (reflexive k = true ->
      router_context.GetString c k w1
        = Some (match v with VString s => (s, true) | _ => (String.EmptyString, false) end, w1) /\
      router_context.GetInt c k w1
        = Some (match v with VInt i => (i, true) | _ => (0, false) end, w1) /\
      router_context.GetInt64 c k w1
        = Some (match v with VInt64 i => (i, true) | _ => (0, false) end, w1) /\
      router_context.GetBool c k w1
        = Some (match v with VBool b => (b, true) | _ => (false, false) end, w1) /\
      router_context.GetFloat64 c k w1
        = Some (match v with VFloat64 f => (f, true) | _ => (0, false) end, w1) /\
      router_context.GetBytes c k w1
        = Some (match v with VBytes b => (b, true) | _ => ([], false) end, w1) /\
      router_context.GetTime c k w1
        = Some (match v with VTime t => (t, true) | _ => (0, false) end, w1)) /\
     (reflexive k = false ->
      router_context.GetString c k w1 = Some ((String.EmptyString, false), w1) /\
      router_context.GetInt c k w1 = Some ((0, false), w1) /\
      router_context.GetInt64 c k w1 = Some ((0, false), w1) /\
      router_context.GetBool c k w1 = Some ((false, false), w1) /\
      router_context.GetFloat64 c k w1 = Some ((0, false), w1) /\
      router_context.GetBytes c k w1 = Some (([], false), w1) /\
      router_context.GetTime c k w1 = Some ((0, false), w1))) /\
  (hashable k = true -> gomap.get m k = VNil ->
   router_context.GetString c k w = Some ((String.EmptyString, false), w) /\
   router_context.GetInt c k w = Some ((0, false), w) /\
   router_context.GetInt64 c k w = Some ((0, false), w) /\
   router_context.GetBool c k w = Some ((false, false), w) /\
   router_context.GetFloat64 c k w = Some ((0, false), w) /\
   router_context.GetBytes c k w = Some (([], false), w) /\
   router_context.GetTime c k w = Some ((0, false), w)).
Proof.
  intros Hc Hm. split; [|split].
  - intros Hk.
    unfold router_context.GetString, router_context.GetInt, router_context.GetInt64,
      router_context.GetBool, router_context.GetFloat64, router_context.GetBytes,
      router_context.GetTime, bind.
    rewrite (proj1 (proj2 (unhashable_panics c k VNil w Hk))). repeat split.
  - intros Hk.
    set (w1 := set_maps (insert (values ci) (gomap.set m k v)) w).
    assert (Hc1 : contexts w1 !! c = Some ci) by exact Hc.
    assert (He1 : entries w1 (values ci) = gomap.set m k v).
    { unfold entries. cbn. rewrite lookup_insert_eq. reflexivity. }
    exists w1. split; [apply (Set_run c ci m k v w Hc Hm Hk)|]. split.
    + intros Hr. apply typed_getters_on.
      rewrite (Get_run c ci k w1 Hc1 Hk), He1, get_set_eq; auto.
    + intros Hr. apply (typed_getters_on c k w1 VNil).
      rewrite (Get_run c ci k w1 Hc1 Hk), get_irreflexive; auto.
  - intros Hk Hnil. apply (typed_getters_on c k w VNil).
    rewrite (Get_run c ci k w Hc Hk). unfold entries. rewrite Hm. cbn.
    rewrite Hnil. reflexivity.
Qed.

Lemma typed_getters_discriminate_witness :
  exists w1,
    router_context.Set_ 1%positive (VString "n") (VInt 3) world_with_value
      = Some (tt, w1) /\
    router_context.GetInt 1%positive (VString "n") w1 = Some ((3, true), w1) /\
    router_context.GetInt64 1%positive (VString "n") w1 = Some ((0, false), w1).
Proof.
  destruct (typed_getters_discriminate world_with_value 1%positive
              {| Context := Some Background; buffer := Some 1%positive;
                 values := 1%positive |}
              [(VString "user", VInt 7)] (VString "n") (VInt 3))
    as (_ & Hrun & _); [reflexivity|reflexivity|].
  destruct (Hrun eq_refl) as (w1 & HSet & Hget & _).
  destruct (Hget eq_refl) as (_ & HInt & HInt64 & _).
  exists w1. auto.
Defined.






Lemma holds_payload_world_with (data : list byte) :
  holds_payload (world_with data) 1%positive data.
Proof.
  eexists _, _, _. split; [apply lookup_singleton_eq|].
  split; [reflexivity|]. split; [apply lookup_singleton_eq|reflexivity].
Qed.

Lemma PrefixMatcher_spec_witness :
  exists r, router.PrefixMatcher "Hello" 1%positive (world_with (bytes_of "Hello, World!"))
            = Some (r, world_with (bytes_of "Hello, World!")) /\
            (r = true <-> bytes_of "Hello" `prefix_of` bytes_of "Hello, World!").
Proof. apply PrefixMatcher_spec, holds_payload_world_with. Defined.

Lemma SuffixMatcher_spec_witness :
  exists r, router.SuffixMatcher "World!" 1%positive (world_with (bytes_of "Hello, World!"))
            = Some (r, world_with (bytes_of "Hello, World!")) /\
            (r = true <-> bytes_of "World!" `suffix_of` bytes_of "Hello, World!").
Proof. apply SuffixMatcher_spec, holds_payload_world_with. Defined.

Lemma ContainsMatcher_spec_witness :
  exists r, router.ContainsMatcher "lo, W" 1%positive (world_with (bytes_of "Hello, World!"))
            = Some (r, world_with (bytes_of "Hello, World!")) /\
            (r = true <-> occurs_in (bytes_of "lo, W") (bytes_of "Hello, World!")).
Proof. apply ContainsMatcher_spec, holds_payload_world_with. Defined.

Lemma matchers_empty_and_short_witness :
  router.ContainsMatcher "" 1%positive (world_with []) = Some (true, world_with []) /\
  router.SuffixMatcher "Hello" 1%positive (world_with (bytes_of "Hi"))
    = Some (false, world_with (bytes_of "Hi")).
Proof.
  split.
  - apply (matchers_empty_and_short (world_with []) 1%positive [] "x"
             (holds_payload_world_with [])).
  - apply (matchers_empty_and_short (world_with (bytes_of "Hi")) 1%positive
             (bytes_of "Hi") "Hello" (holds_payload_world_with _)).
    vm_compute. lia.
Defined.

(** ** Forked contexts *)



Lemma Fork_shared_aux (w : World) (c : loc) (ci : contextImpl) :
  contexts w !! c = Some ci ->
  exists child chi w1,
    router_context.Fork c w = Some (child, w1) /\
    contexts w1 !! child = Some chi /\
    buffer chi = buffer ci /\
    contexts w1 !! c = Some ci /\
    buffers w1 = buffers w.
Proof.
  intros Hc.
  eexists (alloc (contexts w)), _, (forked w ci (buffer ci)).
  split; [apply Fork_run, Hc|].
  split; [cbn; apply lookup_insert_eq|].
  split; [reflexivity|]. split; [|reflexivity].
  cbn. rewrite lookup_insert_ne; [exact Hc|].
  intros E. pose proof (alloc_fresh (contexts w)) as Hf.
  rewrite E, Hc in Hf. discriminate.
Qed.

(** X10: after [Fork], what is written through the child's [Buffer()]
    is what the receiver's [Buffer()] then holds: the two contexts share
    one buffer. *)
Theorem Fork_shares_buffer (w : World) (c : loc) (data p : list byte) :
  holds_payload w c data ->
  exists child w1 b w2,
    router_context.Fork c w = Some (child, w1) /\
    router_context.Buffer child w1 = Some (b, w1) /\
    call_buffer b (buffer.Write p) w1 = Some (Z.of_nat (length p), w2) /\
    router.payload c w2 = Some (data ++ p, w2) /\
    router.payload child w2 = Some (data ++ p, w2).
Proof.
  intros (ci & b & bi & Hc & Hb & Hbi & Hd).
  destruct (Fork_shared_aux w c ci Hc)
    as (child & chi & w1 & HF & Hchild & Hsame & Hparent & Hbufs).
  rewrite Hb in Hsame.
  exists child, w1, (Some b).
  eexists. split; [exact HF|].
  split. { unfold router_context.Buffer, router_context.load, bind, ret.
           rewrite Hchild, Hsame. reflexivity. }
  split. { unfold call_buffer. rewrite Hbufs, Hbi. reflexivity. }
  split; apply payload_of; eexists _, _, _.
  - split; [cbn; exact Hparent|]. split; [exact Hb|].
    split; [cbn; apply lookup_insert_eq|]. cbn. rewrite Hd. reflexivity.
  - split; [cbn; exact Hchild|]. split; [exact Hsame|].
    split; [cbn; apply lookup_insert_eq|]. cbn. rewrite Hd. reflexivity.
Qed.

Lemma Fork_shares_buffer_witness :
  exists child w1 b w2,
    router_context.Fork 1%positive (world_with (bytes_of "abc")) = Some (child, w1) /\
    router_context.Buffer child w1 = Some (b, w1) /\
    call_buffer b (buffer.Write (bytes_of "de")) w1 = Some (2, w2) /\
    router.payload 1%positive w2 = Some (bytes_of "abc" ++ bytes_of "de", w2) /\
    router.payload child w2 = Some (bytes_of "abc" ++ bytes_of "de", w2).
Proof.
  apply (Fork_shares_buffer (world_with (bytes_of "abc")) 1%positive
           (bytes_of "abc") (bytes_of "de")).
  apply holds_payload_world_with.
Defined.

(** ** Pools and the buffer manager *)

Lemma NoDup_delete_lookup {A} (l : list A) (i : nat) (x : A) :
  NoDup l -> l !! i = Some x -> x ∉ delete i l.
Proof.
  intros Hnd Hi. rewrite delete_take_drop.
  rewrite <- (take_drop_middle l i x Hi) in Hnd.
  apply NoDup_app in Hnd as (_ & Hdisj & Hnd2).
  apply NoDup_cons in Hnd2 as [Hx _].
  intros Hin. apply elem_of_app in Hin as [Hin|Hin]; [|contradiction].
  apply (Hdisj x Hin), list_elem_of_here.
Qed.

Lemma sync_Get_buffer_cases (sp : syncPool) (w : World) :
  New sp = Some NewBufferFn ->
  exists l sp' w',
    sync.Get sp w = Some ((Some l, sp'), w') /\
    New sp' = Some NewBufferFn /\
    ((exists i, items sp !! i = Some l /\ items sp' = delete i (items sp) /\
                buffers w' = buffers w) \/
     (buffers w !! l = None /\ items sp' = items sp /\
      buffers w' = <[l := buffer.NewBuffer]> (buffers w))).
Proof.
  intros HNew. cbv [sync.Get sync.next_pick bind].
  destruct (picks w) as [|[i|] rest].
  - rewrite HNew. cbv [run_factory NewBuffer ret].
    eexists _, _, _. split; [reflexivity|]. split; [exact HNew|].
    right. split; [apply alloc_fresh|split; reflexivity].
  - destruct (items sp !! i) as [l|] eqn:Hi.
    + cbv [ret]. eexists _, _, _. split; [reflexivity|]. split; [exact HNew|].
      left. exists i. split; [exact Hi|split; reflexivity].
    + rewrite HNew. cbv [run_factory NewBuffer ret].
      eexists _, _, _. split; [reflexivity|]. split; [exact HNew|].
      right. split; [apply alloc_fresh|split; reflexivity].
  - rewrite HNew. cbv [run_factory NewBuffer ret].
    eexists _, _, _. split; [reflexivity|]. split; [exact HNew|].
    right. split; [apply alloc_fresh|split; reflexivity].
Qed.

Lemma Acquire_as_Get (p : pool.poolImpl) (w : World) l sp' w' :
  sync.Get (pool.pool p) w = Some ((Some l, sp'), w') ->
  pool.Acquire p w = Some ((Some l, {| pool.pool := sp' |}), w').
Proof.
  intros H. unfold pool.Acquire, bind at 1. rewrite H. reflexivity.
Qed.

(** X11: on a pool made with a factory whose idle buffers are allocated
    and pairwise distinct, two acquires with no release between them
    both return a buffer, and never the same one. *)
Theorem Acquire_twice_distinct (p : pool.poolImpl) (w : World) :
  New (pool.pool p) = Some NewBufferFn ->
  NoDup (items (pool.pool p)) ->
  (forall l, l ∈ items (pool.pool p) -> is_Some (buffers w !! l)) ->
  exists l1 l2 w',
    acquire_twice p w = Some ((Some l1, Some l2), w') /\
    l1 <> l2 /\
    is_Some (buffers w' !! l1) /\ is_Some (buffers w' !! l2).
Proof.
  intros HNew Hnd Hall.
  destruct (sync_Get_buffer_cases (pool.pool p) w HNew)
    as (l1 & sp1 & w1 & Hget1 & HNew1 & Hcase1).
  destruct (sync_Get_buffer_cases sp1 w1 HNew1)
    as (l2 & sp2 & w2 & Hget2 & _ & Hcase2).
  exists l1, l2, w2. split.
  { unfold acquire_twice. unfold bind at 1.
    rewrite (Acquire_as_Get p w _ _ _ Hget1). cbn [fst snd].
    unfold bind at 1.
    rewrite (Acquire_as_Get {| pool.pool := sp1 |} w1 _ _ _ Hget2). reflexivity. }
  destruct Hcase1 as [(i & Hi & Hitems1 & Hb1)|(Hfresh1 & Hitems1 & Hb1)].
  - assert (Hl1 : is_Some (buffers w !! l1))
      by (apply Hall; eapply list_elem_of_lookup_2; eauto).
    destruct Hcase2 as [(j & Hj & _ & Hb2)|(Hfresh2 & _ & Hb2)].
    + split.
      * intros <-. apply (NoDup_delete_lookup _ i l1 Hnd Hi).
        rewrite <- Hitems1. eapply list_elem_of_lookup_2; eauto.
      * rewrite Hb2, Hb1. split; [exact Hl1|].
        apply Hall. eapply list_elem_of_delete_inv. rewrite <- Hitems1.
        eapply list_elem_of_lookup_2; eauto.
    + split.
      * intros <-. rewrite Hb1 in Hfresh2. rewrite Hfresh2 in Hl1.
        destruct Hl1; discriminate.
      * rewrite Hb2, Hb1. split.
        -- destruct Hl1 as [x Hx]. exists x. rewrite lookup_insert_ne; [exact Hx|].
           intros <-. rewrite Hb1 in Hfresh2. congruence.
        -- rewrite lookup_insert_eq. eauto.
  - destruct Hcase2 as [(j & Hj & _ & Hb2)|(Hfresh2 & _ & Hb2)].
    + assert (Hl2 : is_Some (buffers w !! l2)).
      { apply Hall. rewrite <- Hitems1. eapply list_elem_of_lookup_2; eauto. }
      split.
      * intros <-. rewrite Hfresh1 in Hl2. destruct Hl2; discriminate.
      * rewrite Hb2, Hb1. split; [rewrite lookup_insert_eq; eauto|].
        destruct Hl2 as [x Hx]. exists x. rewrite lookup_insert_ne; [exact Hx|].
        intros <-. congruence.
    + assert (Hne : l1 <> l2).
      { intros <-. rewrite Hb1, lookup_insert_eq in Hfresh2. discriminate. }
      split; [exact Hne|]. rewrite Hb2, Hb1. split.
      * rewrite lookup_insert_ne by done. rewrite lookup_insert_eq. eauto.
      * rewrite lookup_insert_eq. eauto.
Qed.

Lemma Acquire_twice_distinct_witness :
  exists l1 l2 w',
    acquire_twice one_idle world_one_idle = Some ((Some l1, Some l2), w') /\
    l1 <> l2.
Proof.
  destruct (Acquire_twice_distinct one_idle world_one_idle)
    as (l1 & l2 & w' & Hrun & Hne & _).
  - reflexivity.
  - apply NoDup_singleton.
  - intros l Hl. cbn in Hl. apply list_elem_of_singleton in Hl. subst l.
    exists buffer.NewBuffer. vm_compute. reflexivity.
  - exists l1, l2, w'. split; assumption.
Defined.

(** X12: a pool without a factory never allocates: [Acquire] returns
    one of its idle buffers or the nil zero value, and nil whenever
    nothing is idle. *)
Theorem Acquire_without_factory (p : pool.poolImpl) (w : World) :
  New (pool.pool p) = None ->
  exists r p' w',
    pool.Acquire p w = Some ((r, p'), w') /\
    buffers w' = buffers w /\
    match r with
    | Some l => l ∈ items (pool.pool p)
    | None => p' = p
    end /\
    (items (pool.pool p) = [] -> r = None).
Proof.
  intros HNew. destruct p as [sp]. cbn [pool.pool] in *.
  unfold pool.Acquire. cbv [sync.Get sync.next_pick bind]. cbn [pool.pool].
  destruct (picks w) as [|[i|] rest].
  - rewrite HNew. cbv [ret]. eexists None, _, _.
    split; [reflexivity|]. split; [reflexivity|].
    split; [destruct sp; cbn in *; subst; reflexivity|reflexivity].
  - destruct (items sp !! i) as [l|] eqn:Hi.
    + cbv [ret]. eexists (Some l), _, _.
      split; [reflexivity|]. split; [reflexivity|].
      split; [eapply list_elem_of_lookup_2; eauto|].
      intros Hnil. rewrite Hnil in Hi. discriminate.
    + rewrite HNew. cbv [ret]. eexists None, _, _.
      split; [reflexivity|]. split; [reflexivity|].
      split; [destruct sp; cbn in *; subst; reflexivity|reflexivity].
  - rewrite HNew. cbv [ret]. eexists None, _, _.
    split; [reflexivity|]. split; [reflexivity|].
    split; [destruct sp; cbn in *; subst; reflexivity|reflexivity].
Qed.

Lemma Acquire_without_factory_witness :
  exists w', pool.Acquire bare_pool World0 = Some ((None, bare_pool), w').
Proof.
  destruct (Acquire_without_factory bare_pool World0 eq_refl)
    as ([l|] & p' & w' & Hrun & _ & Hr & Hnil).
  - specialize (Hnil eq_refl). discriminate.
  - subst p'. exists w'. exact Hrun.
Defined.

Lemma set_buffers_twice (l : loc) (b1 b2 : buffer.bufferImpl) (w : World) :
  set_buffers (insert l b2) (set_buffers (insert l b1) w)
  = set_buffers (insert l b2) w.
Proof. unfold set_buffers. cbn. rewrite insert_insert_eq. reflexivity. Qed.

(** X13: on a buffer that is allocated, the manager's [Release] does
    what the pool's [Release] does, its own [Reset] before it changing
    nothing more; and a buffer acquired from the manager, written,
    released and acquired again is empty at the release and at the
    second acquire. *)
Theorem manager_Release_is_pool_Release (bm : manage.bufferManagerImpl)
    (w : World) (l : loc) (payload : list byte) :
  is_Some (buffers w !! l) ->
  New (pool.pool (manage.pool bm)) = Some NewBufferFn ->
  idle_empty (manage.pool bm) w ->
  manage.Release bm (Some l) w
  = (do p <- pool.Release (manage.pool bm) (Some l);
     ret {| manage.pool := p |}) w /\
  exists w', manager_reuse bm payload w = Some ((0, 0), w').
Proof.
  intros [bi Hl] HNew Hidle. split.
  - unfold manage.Release, pool.Release, bind, call_buffer.
    rewrite Hl, Reset_empties. cbn [buffers set_buffers].
    rewrite lookup_insert_eq, Reset_empties.
    rewrite set_buffers_twice. reflexivity.
  - destruct (Acquire_empty (manage.pool bm) w HNew Hidle)
      as (l1 & p1 & w1 & Hacq & Hl1 & HNew1 & Hidle1).
    destruct (write_then_Release p1 l1 payload w1 _ Hl1 Hidle1)
      as (w2 & p2 & w3 & Hwr & Hrel & Hl3 & _ & HNew2 & Hidle3).
    destruct (Acquire_empty p2 w3) as (l2 & p3 & w4 & Hacq' & Hl2 & _ & _);
      [congruence|exact Hidle3|].
    exists w4. unfold manager_reuse, manage.Acquire.
    unfold bind at 1 2. rewrite Hacq. cbn [fst snd ret manage.pool].
    unfold bind at 1. rewrite Hwr.
    unfold bind at 1.
    assert (HmRel : manage.Release {| manage.pool := p1 |} (Some l1) w2
                    = Some ({| manage.pool := p2 |}, w3)).
    { revert Hrel. unfold manage.Release, pool.Release, bind, call_buffer.
      cbn [manage.pool].
      destruct (buffers w2 !! l1) as [b2|] eqn:Hb2; [|discriminate].
      rewrite Reset_empties. cbn [buffers set_buffers].
      rewrite lookup_insert_eq, Reset_empties, set_buffers_twice.
      unfold ret. intros H. injection H as <- <-. reflexivity. }
    rewrite HmRel.
    unfold bind at 1. unfold read_buffer at 1. rewrite Hl3.
    unfold bind at 1 2. cbn [manage.pool]. rewrite Hacq'. cbn [fst snd ret].
    unfold bind, read_buffer. rewrite Hl2. reflexivity.
Qed.

Lemma manager_Release_is_pool_Release_witness :
  exists w', manager_reuse {| manage.pool := one_idle |} (bytes_of "payload")
               world_one_idle = Some ((0, 0), w').
Proof.
  apply (manager_Release_is_pool_Release {| manage.pool := one_idle |}
           world_one_idle 1%positive (bytes_of "payload")).
  - exists buffer.NewBuffer. vm_compute. reflexivity.
  - reflexivity.
  - intros l Hl. cbn in Hl. apply list_elem_of_singleton in Hl. subst l.
    exists buffer.NewBuffer. split; [vm_compute|]; reflexivity.
Defined.

(** ** Router: registration, the cache and the dispatched context *)

(** X14: building the chain twice builds it once: whatever the router,
    after [buildHandlerChain] it is clean and caches the chain just
    returned, and a second [buildHandlerChain] returns that same chain
    and leaves the router as it is. *)
Theorem buildHandlerChain_idempotent (r : router.routerImpl) :
  let h := (router.buildHandlerChain r).1 in
  let r' := (router.buildHandlerChain r).2 in
  router.dirty r' = false /\
  router.handlerChain r' = Some h /\
  router.buildHandlerChain r' = (h, r').
Proof.
  unfold router.buildHandlerChain.
  destruct (router.dirty r) eqn:Hd; cbn [negb].
  - destruct (length (router.middlewares r) =? 0)%nat; cbn; auto.
  - destruct (router.handlerChain r) as [c|] eqn:Hc.
    + cbn [fst snd]. rewrite Hd, Hc. cbn. auto.
    + destruct (length (router.middlewares r) =? 0)%nat; cbn; auto.
Qed.

Lemma buildHandlerChain_idempotent_aux (r : router.routerImpl) :
  router.dirty (router.buildHandlerChain r).2 = false.
Proof.
  unfold router.buildHandlerChain.
  destruct (router.dirty r) eqn:Hd; cbn [negb].
  - destruct (length (router.middlewares r) =? 0)%nat; reflexivity.
  - destruct (router.handlerChain r) as [c|] eqn:Hc.
    + exact Hd.
    + destruct (length (router.middlewares r) =? 0)%nat; reflexivity.
Qed.

Lemma Register_all_fields (es : list router.routeEntry) (r : router.routerImpl) :
  router.routes (Register_all r es) = router.routes r ++ es /\
  router.middlewares (Register_all r es) = router.middlewares r.
Proof.
  revert r. induction es as [|e es IH]; intros r.
  - cbn. rewrite app_nil_r. auto.
  - cbn [Register_all foldl]. fold (Register_all (router.Register r (router.matcher e)
                                                    (router.handler e)) es).
    destruct (IH (router.Register r (router.matcher e) (router.handler e)))
      as [Hr Hm].
    rewrite Hr, Hm. cbn [router.routes router.middlewares router.Register].
    rewrite <- app_assoc. destruct e. auto.
Qed.

(** X15: registration appends.  Routes registered one by one end up in
    the table after the earlier ones, in the order of the calls, and
    leave the middleware list alone; [Use] with two lists in turn is
    [Use] with the two lists at once. *)
Theorem registration_appends (r : router.routerImpl)
    (es : list router.routeEntry) (a b : list router.MiddlewareFunc) :
  router.routes (Register_all r es) = router.routes r ++ es /\
  router.middlewares (Register_all r es) = router.middlewares r /\
  router.Use (router.Use r a) b = router.Use r (a ++ b) /\
  router.routes (router.Use r a) = router.routes r.
Proof.
  destruct (Register_all_fields es r) as [Hr Hm].
  split; [exact Hr|]. split; [exact Hm|]. split; [|reflexivity].
  unfold router.Use. cbn. rewrite <- app_assoc. reflexivity.
Qed.

Lemma Reset_inv (c : loc) (w w' : World) :
  router_context.Reset c w = Some (tt, w') ->
  exists ci,
    contexts w !! c = Some ci /\
    c ∈ items (contextPool w') /\
    contexts w' !! c
      = Some {| Context := None; buffer := None; values := values ci |} /\
    entries w' (values ci) = survivors (entries w (values ci)) /\
    buffers w' = buffers w /\ callOrder w' = callOrder w.
Proof.
  destruct (contexts w !! c) as [ci|] eqn:Hc.
  - destruct (Reset_clears c ci w Hc) as (w1 & Hrun & H1 & H2 & H3 & _ & H4 & H5 & _).
    rewrite Hrun. intros H. injection H as <-. exists ci. auto 10.
  - unfold router_context.Reset, router_context.load, bind. rewrite Hc. discriminate.
Qed.

(** X16: whenever [Route] returns, it returns the buffer it was given,
    it has changed nothing of the router but the cached chain and the
    dirty flag, and the context it handed to the chain is back in the
    context pool with a nil parent and a nil buffer, its store holding
    of the entries the chain left only those whose key is not equal to
    itself (a NaN); every other entry is deleted.  A handler that keeps
    the context holds a recycled object. *)
Theorem Route_recycles_context (r : router.routerImpl)
    (parent : option stdContext) (buf : option loc) (w : World)
    res r' w' :
  router.Route r parent buf w = Some ((res, r'), w') ->
  res.1 = buf /\
  router.routes r' = router.routes r /\
  router.middlewares r' = router.middlewares r /\
  router.bufferManager r' = router.bufferManager r /\
  router.dirty r' = false /\
  exists ctx w0 wa ci,
    router_context.NewContext parent buf w = Some (ctx, w0) /\
    router.call r' (router.buildHandlerChain r).1 ctx w0 = Some (res.2, wa) /\
    contexts wa !! ctx = Some ci /\
    ctx ∈ items (contextPool w') /\
    contexts w' !! ctx
      = Some {| Context := None; buffer := None; values := values ci |} /\
    entries w' (values ci) = survivors (entries wa (values ci)) /\
    Forall (fun e => reflexive e.1 = false) (entries w' (values ci)).
Proof.
  intros HRoute.
  split; [eapply Route_returns_buffer; eauto|].
  revert HRoute. rewrite Route_dispatch. unfold dispatch, bind, ret.
  destruct (router_context.NewContext parent buf w) as [[c w0]|]; [|discriminate].
  destruct (router.call _ _ c w0) as [[err wa]|] eqn:Hcall; [|discriminate].
  destruct (router_context.Reset c wa) as [[[] wb]|] eqn:HReset; [|discriminate].
  intros H. injection H as <- <- <-.
  destruct (Reset_inv c wa wb HReset) as (ci & Hca & Hin & Hc & He & _).
  assert (Hfields : router.routes (router.buildHandlerChain r).2 = router.routes r /\
                    router.middlewares (router.buildHandlerChain r).2
                      = router.middlewares r /\
                    router.bufferManager (router.buildHandlerChain r).2
                      = router.bufferManager r).
  { unfold router.buildHandlerChain.
    destruct (negb (router.dirty r)), (router.handlerChain r),
      (length (router.middlewares r) =? 0)%nat; cbn; auto. }
  destruct Hfields as (H1 & H2 & H3).
  split; [exact H1|]. split; [exact H2|]. split; [exact H3|].
  split; [apply (buildHandlerChain_idempotent_aux r)|].
  exists c, w0, wa, ci. cbn [fst snd].
  split; [reflexivity|]. split; [exact Hcall|]. split; [exact Hca|].
  split; [exact Hin|]. split; [exact Hc|]. split; [exact He|].
  rewrite He. apply survivors_irreflexive.
Qed.

Lemma Route_recycles_context_witness :
  exists res r' w' ctx vl,
    router.Route two_middlewares None (Some 1%positive) (world_with [])
      = Some ((res, r'), w') /\
    ctx ∈ items (contextPool w') /\
    contexts w' !! ctx = Some {| Context := None; buffer := None; values := vl |} /\
    Forall (fun e => reflexive e.1 = false) (entries w' vl).
Proof.
  destruct (router.Route two_middlewares None (Some 1%positive) (world_with []))
    as [[[res r'] w']|] eqn:HRoute.
  - destruct (Route_recycles_context two_middlewares None (Some 1%positive)
                (world_with []) res r' w' HRoute)
      as (_ & _ & _ & _ & _ & ctx & w0 & wa & ci & _ & _ & _ & Hin & Hc & _ & Hall).
    exists res, r', w', ctx, (values ci). auto.
  - vm_compute in HRoute. discriminate.
Defined.

(** ** Pipelines *)

Lemma pipeline_wrap_from_take (mws : list router.MiddlewareFunc) (n : nat)
    (h : router.HandlerFunc) :
  (n <= length mws)%nat ->
  pipeline.wrap_from mws n h = onion (take n mws) h.
Proof.
  revert h. induction n as [|i IH]; intros h Hn.
  - reflexivity.
  - cbn [pipeline.wrap_from].
    destruct (mws !! i) as [m|] eqn:Hm;
      [|apply lookup_ge_None in Hm; unfold router.MiddlewareFunc in *; lia].
    rewrite IH by lia.
    rewrite (take_S_r mws i m Hm). unfold onion. rewrite foldr_app. reflexivity.
Qed.

Lemma pipeline_wrap_from_all (mws : list router.MiddlewareFunc)
    (h : router.HandlerFunc) :
  pipeline.wrap_from mws (length mws) h = onion mws h.
Proof.
  rewrite pipeline_wrap_from_take by lia. rewrite firstn_all. reflexivity.
Qed.

(** X17: [Handle] runs the pipeline's current middleware nested around
    a handler that does nothing, the first-added outermost, composing
    them anew at every call; with no middleware it returns nil and
    changes nothing, and with middleware that record a call before and
    after [next] it returns nil having recorded the before-marks in
    the order added and then the after-marks in reverse. *)
Theorem Handle_is_onion (p : pipeline.pipelineImpl) (names : list string)
    (ctx : loc) (w : World) :
  pipeline.Handle p ctx w
    = onion (pipeline.middlewares p) pipeline.baseHandler ctx w /\
  pipeline.Handle pipeline.new ctx w = Some (None, w) /\
  pipeline.Handle (pipeline.Use pipeline.new (map traced names)) ctx w
    = Some (None, logged (map (fun n => n +:+ "-before") names
                          ++ rev (map (fun n => n +:+ "-after") names)) w).
Proof.
  assert (Hgen : forall q, pipeline.Handle q ctx w
                 = onion (pipeline.middlewares q) pipeline.baseHandler ctx w).
  { intros q. unfold pipeline.Handle.
    pose proof (pipeline_wrap_from_all (pipeline.middlewares q)
                  pipeline.baseHandler) as Hall.
    destruct (length (pipeline.middlewares q) =? 0)%nat eqn:E.
    - apply Nat.eqb_eq in E.
      destruct (pipeline.middlewares q); [reflexivity|discriminate].
    - exact (f_equal (fun f => f ctx w) Hall). }
  split; [apply Hgen|]. split; [reflexivity|].
  rewrite Hgen. cbn [pipeline.middlewares pipeline.Use pipeline.new app].
  rewrite onion_traced. unfold pipeline.baseHandler, ret.
  rewrite logged_logged. reflexivity.
Qed.

(** ** Buffers over backing arrays *)

Section slices_properties.

Variable newcap : nat -> nat -> nat.

Lemma elems_length (m : slices.Mem) (s : slices.slice) (arr : list byte) :
  slices.arrays m !! slices.array s = Some arr ->
  (slices.offset s + slices.len s <= length arr)%nat ->
  length (slices.elems m s) = slices.len s.
Proof.
  intros Ha Hb. unfold slices.elems, slices.contents. rewrite Ha. cbn.
  rewrite length_take, length_drop. lia.
Qed.

Lemma inplace_length (arr p : list byte) (o l : nat) :
  (o + (l + length p) <= length arr)%nat ->
  length (take (o + l) arr ++ p ++ drop (o + (l + length p)) arr) = length arr.
Proof.
  intros H. rewrite !length_app, length_take, length_drop. lia.
Qed.

Lemma inplace_lookup_lt (arr p : list byte) (o l n i : nat) :
  (o + l <= length arr)%nat -> (i < o + l)%nat ->
  (take (o + l) arr ++ p ++ drop (o + n) arr) !! i = arr !! i.
Proof.
  intros H Hi. rewrite lookup_app_l by (rewrite length_take; lia).
  apply lookup_take_lt. exact Hi.
Qed.

Lemma inplace_read (arr p : list byte) (o l : nat) :
  (o + (l + length p) <= length arr)%nat ->
  take (l + length p)
    (drop o (take (o + l) arr ++ p ++ drop (o + (l + length p)) arr))
  = take l (drop o arr) ++ p.
Proof.
  intros H.
  rewrite drop_app_le by (rewrite length_take; lia).
  rewrite <- take_drop_commute.
  rewrite app_assoc, take_app_le by (rewrite length_app, length_take, length_drop; lia).
  rewrite take_ge; [reflexivity|].
  rewrite length_app, length_take, length_drop. lia.
Qed.

Lemma range_unchanged (arr arr' : list byte) (j k : nat) :
  (forall i, (i < j + k)%nat -> arr' !! i = arr !! i) ->
  take k (drop j arr') = take k (drop j arr).
Proof.
  intros H. apply list_eq. intros i.
  destruct (decide (i < k)%nat) as [Hi|Hi].
  - rewrite !lookup_take_lt, !lookup_drop by exact Hi. apply H. lia.
  - rewrite !lookup_take_ge by lia. reflexivity.
Qed.

Lemma wf_set_data (m : slices.Mem) (b : loc) (s : slices.slice) (arr : list byte) :
  slices.wf m ->
  slices.arrays m !! slices.array s = Some arr ->
  (slices.offset s + slices.cap s <= length arr)%nat ->
  (slices.len s <= slices.cap s)%nat ->
  slices.wf (slices.set_data b s m).
Proof.
  intros Hwf Ha Hb Hl b' s' Hs'. cbn in Hs' |- *.
  destruct (decide (b = b')) as [->|Hne].
  - rewrite lookup_insert_eq in Hs'. injection Hs' as <-. eauto.
  - rewrite lookup_insert_ne in Hs' by done. apply (Hwf b' s' Hs').
Qed.

Lemma wf_update_array (m : slices.Mem) (a : loc) (arr' : list byte) :
  slices.wf m ->
  (forall arr, slices.arrays m !! a = Some arr -> length arr' = length arr) ->
  slices.wf {| slices.arrays := <[a := arr']> (slices.arrays m);
               slices.structs := slices.structs m |}.
Proof.
  intros Hwf Hlen b s Hs. cbn in Hs |- *.
  destruct (Hwf b s Hs) as (arr & Ha & Hb & Hl).
  destruct (decide (a = slices.array s)) as [->|Hne].
  - exists arr'. rewrite lookup_insert_eq. rewrite (Hlen arr Ha). auto.
  - exists arr. rewrite lookup_insert_ne by done. auto.
Qed.

Lemma append_spec (m : slices.Mem) (s : slices.slice) (p : list byte)
    (arr : list byte) :
  slices.wf m ->
  slices.arrays m !! slices.array s = Some arr ->
  (slices.offset s + slices.cap s <= length arr)%nat ->
  (slices.len s <= slices.cap s)%nat ->
  let s' := (slices.append newcap s p m).1 in
  let m' := (slices.append newcap s p m).2 in
  slices.elems m' s' = slices.elems m s ++ p /\
  slices.len s' = (slices.len s + length p)%nat /\
  (slices.cap s <= slices.cap s')%nat /\
  slices.structs m' = slices.structs m /\
  slices.wf m' /\
  (exists arr', slices.arrays m' !! slices.array s' = Some arr' /\
                (slices.offset s' + slices.cap s' <= length arr')%nat) /\
  (slices.len s' <= slices.cap s')%nat /\
  ((slices.len s + length p <= slices.cap s)%nat ->
   slices.array s' = slices.array s /\ slices.offset s' = slices.offset s /\
   slices.cap s' = slices.cap s /\
   dom (slices.arrays m') = dom (slices.arrays m) /\
   slices.arrays m' !! slices.array s
     = Some (take (slices.offset s + slices.len s) arr ++ p
             ++ drop (slices.offset s + (slices.len s + length p)) arr)) /\
  ((slices.cap s < slices.len s + length p)%nat ->
   slices.arrays m !! slices.array s' = None /\
   forall a, a <> slices.array s' ->
             slices.arrays m' !! a = slices.arrays m !! a).
Proof.
  intros Hwf Ha Hb Hl. unfold slices.append.
  destruct (Nat.leb_spec (slices.len s + length p) (slices.cap s)) as [Hfit|Hbig];
    cbn [fst snd].
  - assert (Hcont : slices.contents m (slices.array s) = arr)
      by (unfold slices.contents; rewrite Ha; reflexivity).
    rewrite Hcont.
    split.
    { unfold slices.elems, slices.contents. cbn. rewrite lookup_insert_eq, Ha. cbn.
      apply inplace_read. lia. }
    split; [reflexivity|]. split; [cbn; lia|]. split; [reflexivity|].
    split. { apply wf_update_array; [exact Hwf|].
             intros arr0 H0. rewrite Ha in H0. injection H0 as <-.
             apply inplace_length. lia. }
    split. { eexists. cbn. rewrite lookup_insert_eq. split; [reflexivity|].
             rewrite inplace_length by lia. exact Hb. }
    split; [cbn; lia|].
    split; [|intros; lia].
    intros _. cbn. repeat split.
    + rewrite dom_insert_L. apply elem_of_dom_2 in Ha.
      apply subseteq_union_1_L, singleton_subseteq_l, Ha.
    + apply lookup_insert_eq.
  - assert (Hfresh : slices.arrays m !! alloc (slices.arrays m) = None)
      by apply alloc_fresh.
    assert (Hlen : length (slices.elems m s) = slices.len s)
      by (apply (elems_length m s arr Ha); lia).
    split.
    { unfold slices.elems at 1, slices.contents. cbn. rewrite lookup_insert_eq. cbn.
      rewrite drop_0, app_assoc, take_app_le by (rewrite length_app; lia).
      apply take_ge. rewrite length_app. lia. }
    split; [reflexivity|]. split; [cbn; lia|]. split; [reflexivity|].
    split. { intros b0 s0 Hs0. cbn in Hs0 |- *.
             destruct (Hwf b0 s0 Hs0) as (arr0 & Ha0 & Hb0 & Hl0).
             exists arr0. rewrite lookup_insert_ne; [auto|].
             intros E. rewrite E, Ha0 in Hfresh. discriminate. }
    split. { eexists. cbn. rewrite lookup_insert_eq. split; [reflexivity|].
             rewrite !length_app, length_replicate, Hlen. lia. }
    split; [cbn; lia|].
    split; [intros; lia|].
    intros _. cbn. split; [exact Hfresh|].
    intros a Hne. rewrite lookup_insert_ne by done. reflexivity.
Qed.

Lemma Write_run (m : slices.Mem) (b : loc) (s : slices.slice) (p : list byte) :
  slices.structs m !! b = Some s ->
  slices.Write newcap b p m
  = Some (Z.of_nat (length p),
          slices.set_data b (slices.append newcap s p m).1
            (slices.append newcap s p m).2).
Proof.
  intros Hs. unfold slices.Write. rewrite Hs. cbn.
  destruct (slices.append newcap s p m). reflexivity.
Qed.

Lemma Get_set_data (m : slices.Mem) (b : loc) (s : slices.slice) :
  slices.Get b (slices.set_data b s m) = Some (slices.elems m s).
Proof. unfold slices.Get. cbn. rewrite lookup_insert_eq. reflexivity. Qed.

Lemma Write_appends_aux (m : slices.Mem) (b : loc) (s : slices.slice) (p : list byte) :
  slices.wf m ->
  slices.structs m !! b = Some s ->
  exists m' s',
    slices.Write newcap b p m = Some (Z.of_nat (length p), m') /\
    slices.structs m' !! b = Some s' /\
    slices.Get b m' = Some (slices.elems m s ++ p) /\
    slices.Len b m' = Some (Z.of_nat (slices.len s + length p)) /\
    (slices.cap s <= slices.cap s')%nat /\
    (slices.len s' <= slices.cap s')%nat /\
    slices.wf m' /\
    ((slices.len s + length p <= slices.cap s)%nat ->
     slices.array s' = slices.array s /\ slices.cap s' = slices.cap s /\
     dom (slices.arrays m') = dom (slices.arrays m)).
Proof.
  intros Hwf Hs. destruct (Hwf b s Hs) as (arr & Ha & Hb & Hl).
  destruct (append_spec m s p arr Hwf Ha Hb Hl)
    as (He & Hlen & Hcap & Hst & Hwf' & (arr' & Ha' & Hb') & Hl' & Hfit & _).
  eexists _, _. split; [apply (Write_run m b s p Hs)|].
  split; [cbn; apply lookup_insert_eq|].
  split; [rewrite Get_set_data, He; reflexivity|].
  split. { unfold slices.Len. cbn. rewrite lookup_insert_eq. cbn. rewrite Hlen.
           reflexivity. }
  split; [exact Hcap|]. split; [exact Hl'|].
  split; [eapply wf_set_data; eauto|].
  intros Hf. destruct (Hfit Hf) as (H1 & _ & H3 & H4 & _). auto.
Qed.

(** X18: on a buffer over a backing array, [Write(p)] returns
    [len(p)] and leaves the old bytes followed by [p], whether it wrote
    in place or moved to a larger array; the capacity never shrinks,
    and when [p] fits the capacity the buffer keeps its array, its
    capacity, and no array is allocated. *)
Theorem Write_appends (m : slices.Mem) (b : loc) (s : slices.slice) (p : list byte) :
  slices.wf m ->
  slices.structs m !! b = Some s ->
  exists m' s',
    slices.Write newcap b p m = Some (Z.of_nat (length p), m') /\
    slices.structs m' !! b = Some s' /\
    slices.Get b m' = Some (slices.elems m s ++ p) /\
    slices.Len b m' = Some (Z.of_nat (slices.len s + length p)) /\
    (slices.cap s <= slices.cap s')%nat /\
    (slices.len s' <= slices.cap s')%nat /\
    slices.wf m' /\
    ((slices.len s + length p <= slices.cap s)%nat ->
     slices.array s' = slices.array s /\ slices.cap s' = slices.cap s /\
     dom (slices.arrays m') = dom (slices.arrays m)).
Proof. apply Write_appends_aux. Qed.

Lemma reslice_ok (s : slices.slice) (lo hi : Z) :
  0 <= lo -> lo <= hi -> hi <= Z.of_nat (slices.cap s) ->
  slices.reslice s lo hi
  = Some {| slices.array := slices.array s;
            slices.offset := slices.offset s + Z.to_nat lo;
            slices.len := Z.to_nat hi - Z.to_nat lo;
            slices.cap := slices.cap s - Z.to_nat lo |}.
Proof.
  intros H0 H1 H2. unfold slices.reslice.
  destruct (Z.leb_spec 0 lo); [|lia].
  destruct (Z.leb_spec lo hi); [|lia].
  destruct (Z.leb_spec hi (Z.of_nat (slices.cap s))); [|lia].
  reflexivity.
Qed.

Lemma reslice_out (s : slices.slice) (lo hi : Z) :
  ~ (0 <= lo /\ lo <= hi /\ hi <= Z.of_nat (slices.cap s)) ->
  slices.reslice s lo hi = None.
Proof.
  intros H. unfold slices.reslice.
  destruct (Z.leb_spec 0 lo); [|reflexivity].
  destruct (Z.leb_spec lo hi); [|reflexivity].
  destruct (Z.leb_spec hi (Z.of_nat (slices.cap s))); [|reflexivity].
  exfalso. apply H. auto.
Qed.

Lemma Reset_run (m : slices.Mem) (b : loc) (s : slices.slice) :
  slices.structs m !! b = Some s ->
  slices.Reset b m
  = Some (slices.set_data b {| slices.array := slices.array s;
                               slices.offset := slices.offset s;
                               slices.len := 0;
                               slices.cap := slices.cap s |} m).
Proof.
  intros Hs. unfold slices.Reset. rewrite Hs. cbn.
  rewrite (reslice_ok s 0 0) by lia. cbn [mbind option_bind].
  change (Z.to_nat 0) with 0%nat.
  rewrite Nat.add_0_r, !Nat.sub_0_r. reflexivity.
Qed.

(** X19: [Reset] empties the buffer and keeps its capacity and its
    array; a [Write] of at most that many bytes after it then allocates
    nothing and leaves exactly the bytes written. *)
Theorem Reset_retains_capacity (m : slices.Mem) (b : loc) (s : slices.slice)
    (p : list byte) :
  slices.wf m ->
  slices.structs m !! b = Some s ->
  exists m1,
    slices.Reset b m = Some m1 /\
    slices.Get b m1 = Some [] /\
    slices.Len b m1 = Some 0 /\
    slices.Cap b m1 = Some (Z.of_nat (slices.cap s)) /\
    slices.arrays m1 = slices.arrays m /\
    slices.wf m1 /\
    ((length p <= slices.cap s)%nat ->
     exists m2,
       slices.Write newcap b p m1 = Some (Z.of_nat (length p), m2) /\
       slices.Get b m2 = Some p /\
       slices.Cap b m2 = Some (Z.of_nat (slices.cap s)) /\
       dom (slices.arrays m2) = dom (slices.arrays m)).
Proof.
  intros Hwf Hs. destruct (Hwf b s Hs) as (arr & Ha & Hb & Hl).
  set (s0 := {| slices.array := slices.array s; slices.offset := slices.offset s;
                slices.len := 0; slices.cap := slices.cap s |}).
  assert (Hwf1 : slices.wf (slices.set_data b s0 m)).
  { apply (wf_set_data m b s0 arr Hwf Ha Hb). cbn. lia. }
  exists (slices.set_data b s0 m).
  split; [apply (Reset_run m b s Hs)|].
  split; [rewrite Get_set_data; reflexivity|].
  split; [unfold slices.Len; cbn; rewrite lookup_insert_eq; reflexivity|].
  split; [unfold slices.Cap; cbn; rewrite lookup_insert_eq; reflexivity|].
  split; [reflexivity|]. split; [exact Hwf1|].
  intros Hp.
  destruct (Write_appends_aux (slices.set_data b s0 m) b s0 p Hwf1)
    as (m2 & s2 & HW & Hs2 & HG & _ & _ & _ & _ & Hfit);
    [cbn; apply lookup_insert_eq|].
  exists m2. split; [exact HW|].
  split; [rewrite HG; reflexivity|].
  destruct Hfit as (_ & Hc & Hd); [cbn; lia|].
  split; [unfold slices.Cap; rewrite Hs2; cbn; rewrite Hc; reflexivity|exact Hd].
Qed.

(** X20: [NewBuffer] makes an empty buffer of capacity 1024 in a memory
    that stays well formed, and a first [Write] of up to 1024 bytes
    stays within the array it was made with. *)
Theorem NewBuffer_capacity (m : slices.Mem) (p : list byte) :
  slices.wf m ->
  let b := (slices.NewBuffer m).1 in
  let m1 := (slices.NewBuffer m).2 in
  slices.structs m !! b = None /\
  slices.Get b m1 = Some [] /\
  slices.Cap b m1 = Some 1024 /\
  slices.wf m1 /\
  ((length p <= 1024)%nat ->
   exists m2,
     slices.Write newcap b p m1 = Some (Z.of_nat (length p), m2) /\
     slices.Get b m2 = Some p /\
     slices.Cap b m2 = Some 1024 /\
     dom (slices.arrays m2) = dom (slices.arrays m1)).
Proof.
  intros Hwf. unfold slices.NewBuffer, slices.make. cbn [fst snd slices.structs].
  set (a := alloc (slices.arrays m)).
  set (b := alloc (slices.structs m)).
  set (s0 := {| slices.array := a; slices.offset := 0; slices.len := 0;
                slices.cap := 1024 |}).
  set (m0 := {| slices.arrays := <[a := replicate 1024 x00]> (slices.arrays m);
                slices.structs := slices.structs m |}).
  assert (Hwf0 : slices.wf m0).
  { intros b0 s Hs. cbn in Hs |- *. destruct (Hwf b0 s Hs) as (arr & Ha & Hb & Hl).
    exists arr. rewrite lookup_insert_ne; [auto|].
    intros E. pose proof (alloc_fresh (slices.arrays m)) as Hf.
    fold a in Hf. rewrite E, Ha in Hf. discriminate. }
  assert (Hwf1 : slices.wf (slices.set_data b s0 m0)).
  { apply (wf_set_data m0 b s0 (replicate 1024 x00) Hwf0).
    - cbn. apply lookup_insert_eq.
    - rewrite length_replicate. cbn. lia.
    - cbn. lia. }
  split; [apply alloc_fresh|].
  split; [rewrite Get_set_data; reflexivity|].
  split; [unfold slices.Cap; cbn; rewrite lookup_insert_eq; reflexivity|].
  split; [exact Hwf1|].
  intros Hp.
  destruct (Write_appends_aux (slices.set_data b s0 m0) b s0 p Hwf1)
    as (m2 & s2 & HW & Hs2 & HG & _ & _ & _ & _ & Hfit);
    [cbn; apply lookup_insert_eq|].
  exists m2. split; [exact HW|].
  split; [rewrite HG; reflexivity|].
  destruct Hfit as (_ & Hc & Hd); [cbn; lia|].
  split; [unfold slices.Cap; rewrite Hs2; cbn; rewrite Hc; reflexivity|exact Hd].
Qed.

Lemma sub_window (l : list byte) (o c st k : nat) :
  (st + k <= c)%nat ->
  take k (drop st (take c (drop o l))) = take k (drop (o + st) l).
Proof.
  intros H. apply list_eq. intros i.
  destruct (decide (i < k)%nat) as [Hi|Hi].
  - rewrite !lookup_take_lt by exact Hi. rewrite !lookup_drop.
    rewrite lookup_take_lt by lia. rewrite lookup_drop. f_equal. lia.
  - rewrite !lookup_take_ge by lia. reflexivity.
Qed.

Lemma Slice_run (m : slices.Mem) (b : loc) (s : slices.slice) (start end_ : Z) :
  slices.structs m !! b = Some s ->
  0 <= start -> start <= end_ -> end_ <= Z.of_nat (slices.cap s) ->
  slices.Slice b start end_ m
  = Some (alloc (slices.structs m),
          slices.set_data (alloc (slices.structs m))
            {| slices.array := slices.array s;
               slices.offset := slices.offset s + Z.to_nat start;
               slices.len := Z.to_nat end_ - Z.to_nat start;
               slices.cap := slices.cap s - Z.to_nat start |} m).
Proof.
  intros Hs H0 H1 H2. unfold slices.Slice. rewrite Hs. cbn [mbind option_bind].
  rewrite reslice_ok by assumption. reflexivity.
Qed.

Lemma Slice_is_a_view_aux (m : slices.Mem) (b : loc) (s : slices.slice)
    (start end_ : Z) :
  slices.wf m ->
  slices.structs m !! b = Some s ->
  (0 <= start /\ start <= end_ /\ end_ <= Z.of_nat (slices.cap s) ->
   exists b' m',
     slices.Slice b start end_ m = Some (b', m') /\
     slices.structs m !! b' = None /\
     slices.arrays m' = slices.arrays m /\
     slices.structs m' !! b = Some s /\
     slices.Get b' m'
       = Some (take (Z.to_nat end_ - Z.to_nat start)
                 (drop (Z.to_nat start) (slices.window m s))) /\
     (end_ <= Z.of_nat (slices.len s) ->
      slices.Get b' m'
        = Some (take (Z.to_nat end_ - Z.to_nat start)
                  (drop (Z.to_nat start) (slices.elems m s)))) /\
     slices.Len b' m' = Some (end_ - start) /\
     slices.Cap b' m' = Some (Z.of_nat (slices.cap s) - start) /\
     slices.wf m') /\
  (~ (0 <= start /\ start <= end_ /\ end_ <= Z.of_nat (slices.cap s)) ->
   slices.Slice b start end_ m = None).
Proof.
  intros Hwf Hs. destruct (Hwf b s Hs) as (arr & Ha & Hb & Hl). split.
  - intros (H0 & H1 & H2).
    assert (Hfresh : slices.structs m !! alloc (slices.structs m) = None)
      by apply alloc_fresh.
    eexists _, _. split; [apply (Slice_run m b s start end_ Hs H0 H1 H2)|].
    split; [exact Hfresh|]. split; [reflexivity|].
    split. { cbn. rewrite lookup_insert_ne; [exact Hs|]. congruence. }
    split. { rewrite Get_set_data. unfold slices.elems, slices.window. cbn.
             rewrite sub_window by lia. reflexivity. }
    split. { intros H3. rewrite Get_set_data. unfold slices.elems at 1 2. cbn.
             rewrite sub_window by lia. reflexivity. }
    split. { unfold slices.Len. cbn. rewrite lookup_insert_eq. cbn. f_equal. lia. }
    split. { unfold slices.Cap. cbn. rewrite lookup_insert_eq. cbn. f_equal. lia. }
    eapply wf_set_data; [exact Hwf|exact Ha|cbn; lia|cbn; lia].
  - intros Hout. unfold slices.Slice. rewrite Hs. cbn [mbind option_bind].
    rewrite reslice_out by exact Hout. reflexivity.
Qed.

(** X21: [Slice(start, end)] panics unless
    [0 <= start <= end <= Cap()]; otherwise it returns a new buffer on
    the same array, copying nothing and leaving the receiver as it is:
    its bytes are those of the receiver's capacity window from [start]
    to [end] (of the receiver's content when [end <= Len()]), its
    length is [end - start] and its capacity what is left after
    [start]. *)
Theorem Slice_is_a_view (m : slices.Mem) (b : loc) (s : slices.slice)
    (start end_ : Z) :
  slices.wf m ->
  slices.structs m !! b = Some s ->
  (0 <= start /\ start <= end_ /\ end_ <= Z.of_nat (slices.cap s) ->
   exists b' m',
     slices.Slice b start end_ m = Some (b', m') /\
     slices.structs m !! b' = None /\
     slices.arrays m' = slices.arrays m /\
     slices.structs m' !! b = Some s /\
     slices.Get b' m'
       = Some (take (Z.to_nat end_ - Z.to_nat start)
                 (drop (Z.to_nat start) (slices.window m s))) /\
     (end_ <= Z.of_nat (slices.len s) ->
      slices.Get b' m'
        = Some (take (Z.to_nat end_ - Z.to_nat start)
                  (drop (Z.to_nat start) (slices.elems m s)))) /\
     slices.Len b' m' = Some (end_ - start) /\
     slices.Cap b' m' = Some (Z.of_nat (slices.cap s) - start) /\
     slices.wf m') /\
  (~ (0 <= start /\ start <= end_ /\ end_ <= Z.of_nat (slices.cap s)) ->
   slices.Slice b start end_ m = None).
Proof. apply Slice_is_a_view_aux. Qed.

Lemma append_frame (m : slices.Mem) (s : slices.slice) (p : list byte) (a : loc) :
  a <> slices.array s ->
  is_Some (slices.arrays m !! a) ->
  slices.arrays (slices.append newcap s p m).2 !! a = slices.arrays m !! a.
Proof.
  intros Hne [arr Ha]. unfold slices.append.
  destruct (_ <=? _)%nat; cbn.
  - rewrite lookup_insert_ne by done. reflexivity.
  - rewrite lookup_insert_ne; [reflexivity|].
    intros E. pose proof (alloc_fresh (slices.arrays m)) as Hf.
    rewrite E, Ha in Hf. discriminate.
Qed.

Lemma elems_same_array (m m' : slices.Mem) (s : slices.slice) :
  slices.arrays m' !! slices.array s = slices.arrays m !! slices.array s ->
  slices.elems m' s = slices.elems m s.
Proof. intros H. unfold slices.elems, slices.contents. rewrite H. reflexivity. Qed.

(** X22: a slice taken within the receiver's content keeps its bytes
    whatever is then written to the receiver: appended bytes land after
    the content, in place or in a new array. *)
Theorem parent_Write_keeps_slice (m : slices.Mem) (b : loc) (s : slices.slice)
    (start end_ : Z) (p : list byte) :
  slices.wf m ->
  slices.structs m !! b = Some s ->
  0 <= start -> start <= end_ -> end_ <= Z.of_nat (slices.len s) ->
  exists b' m1 m2,
    slices.Slice b start end_ m = Some (b', m1) /\
    slices.Write newcap b p m1 = Some (Z.of_nat (length p), m2) /\
    slices.Get b' m1
      = Some (take (Z.to_nat end_ - Z.to_nat start)
                (drop (Z.to_nat start) (slices.elems m s))) /\
    slices.Get b' m2 = slices.Get b' m1 /\
    slices.Get b m2 = Some (slices.elems m s ++ p).
Proof.
  intros Hwf Hs H0 H1 H2. destruct (Hwf b s Hs) as (arr & Ha & Hb & Hl).
  destruct (Slice_is_a_view_aux m b s start end_ Hwf Hs) as [Hin _].
  destruct Hin as (b' & m1 & HSl & Hfresh & Harr & Hs1 & _ & HG & _ & _ & Hwf1);
    [lia|].
  pose proof HSl as HSl'.
  rewrite (Slice_run m b s start end_ Hs) in HSl' by lia.
  injection HSl' as Eb Em.
  destruct (Write_appends_aux m1 b s p Hwf1 Hs1)
    as (m2 & s2 & HW & Hs2 & HG2 & _).
  exists b', m1, m2. split; [exact HSl|]. split; [exact HW|].
  split; [apply HG; exact H2|].
  split.
  - pose proof HW as HW'. rewrite (Write_run m1 b s p Hs1) in HW'.
    injection HW' as Em2.
    assert (Hne : b <> b') by (intros ->; congruence).
    set (s' := {| slices.array := slices.array s;
                  slices.offset := slices.offset s + Z.to_nat start;
                  slices.len := Z.to_nat end_ - Z.to_nat start;
                  slices.cap := slices.cap s - Z.to_nat start |}) in *.
    assert (Hs' : slices.structs m1 !! b' = Some s').
    { rewrite <- Em, <- Eb. cbn. apply lookup_insert_eq. }
    assert (Ha1 : slices.arrays m1 !! slices.array s = Some arr)
      by (rewrite Harr; exact Ha).
    destruct (append_spec m1 s p arr Hwf1 Ha1 Hb Hl)
      as (_ & _ & _ & Hst & _ & _ & _ & Hfit & Hbig).
    unfold slices.Get. rewrite <- Em2. cbn [slices.structs slices.set_data].
    rewrite lookup_insert_ne by done. rewrite Hst, Hs'. cbn. f_equal.
    unfold slices.elems. cbn [slices.arrays slices.set_data].
    destruct (Nat.le_gt_cases (slices.len s + length p) (slices.cap s)) as [Hf|Hg].
    + destruct (Hfit Hf) as (_ & _ & _ & _ & Harr').
      unfold slices.contents. cbn [slices.arrays slices.set_data].
      rewrite Harr', Ha1. cbn [default from_option id].
      apply range_unchanged. intros i Hi.
      apply inplace_lookup_lt; lia.
    + destruct (Hbig Hg) as (Hnone & Hsame).
      unfold slices.contents. cbn [slices.arrays slices.set_data].
      rewrite Hsame; [reflexivity|]. intros E. rewrite <- E, Ha1 in Hnone.
      discriminate.
  - rewrite HG2. f_equal. f_equal. apply elems_same_array. rewrite Harr.
    reflexivity.
Qed.

Lemma clobber (arr p : list byte) (o l e : nat) :
  (o + l <= length arr)%nat -> (e + length p <= l)%nat ->
  take l (drop o (take (o + e) arr ++ p ++ drop (o + (e + length p)) arr))
  = take e (take l (drop o arr)) ++ p
    ++ drop (e + length p) (take l (drop o arr)).
Proof.
  intros H1 H2. apply list_eq. intros i.
  destruct (decide (i < l)%nat) as [Hi|Hi].
  - rewrite lookup_take_lt by exact Hi. rewrite lookup_drop.
    destruct (decide (i < e)%nat) as [Hie|Hie].
    + rewrite lookup_app_l by (rewrite length_take; lia).
      rewrite lookup_take_lt by lia.
      rewrite lookup_app_l by (rewrite !length_take, length_drop; lia).
      rewrite !lookup_take_lt by lia. rewrite lookup_drop. reflexivity.
    + rewrite lookup_app_r by (rewrite length_take; lia).
      rewrite length_take, Nat.min_l by lia.
      rewrite (lookup_app_r (take e _)) by (rewrite !length_take, length_drop; lia).
      rewrite !length_take, length_drop.
      replace (e `min` (l `min` (length arr - o)))%nat with e by lia.
      replace (o + i - (o + e))%nat with (i - e)%nat by lia.
      destruct (decide (i - e < length p)%nat) as [Hp|Hp].
      * rewrite !lookup_app_l by exact Hp. reflexivity.
      * rewrite !lookup_app_r by lia. rewrite !lookup_drop.
        rewrite lookup_take_lt by lia. rewrite lookup_drop. f_equal. lia.
  - rewrite lookup_take_ge by lia. symmetry. apply lookup_ge_None.
    rewrite !length_app, !length_take, !length_drop, !length_take, !length_drop. lia.
Qed.

(** X23: a slice shares the receiver's array in both directions: when
    the slice ends inside the receiver's content and [p] is no longer
    than what follows it there, [Write(p)] on the slice overwrites the
    receiver's bytes just after the slice. *)
Theorem slice_Write_overwrites_parent (m : slices.Mem) (b : loc)
    (s : slices.slice) (start end_ : Z) (p : list byte) :
  slices.wf m ->
  slices.structs m !! b = Some s ->
  0 <= start -> start <= end_ ->
  end_ + Z.of_nat (length p) <= Z.of_nat (slices.len s) ->
  exists b' m1 m2,
    slices.Slice b start end_ m = Some (b', m1) /\
    slices.Write newcap b' p m1 = Some (Z.of_nat (length p), m2) /\
    slices.Get b m2
      = Some (take (Z.to_nat end_) (slices.elems m s) ++ p
              ++ drop (Z.to_nat end_ + length p) (slices.elems m s)) /\
    slices.Len b m2 = Some (Z.of_nat (slices.len s)).
Proof.
  intros Hwf Hs H0 H1 H2. destruct (Hwf b s Hs) as (arr & Ha & Hb & Hl).
  destruct (Slice_is_a_view_aux m b s start end_ Hwf Hs) as [Hin _].
  destruct Hin as (b' & m1 & HSl & Hfresh & Harr & Hs1 & _ & _ & _ & _ & Hwf1);
    [lia|].
  pose proof HSl as HSl'.
  rewrite (Slice_run m b s start end_ Hs) in HSl' by lia.
  injection HSl' as Eb Em.
  set (s' := {| slices.array := slices.array s;
                slices.offset := slices.offset s + Z.to_nat start;
                slices.len := Z.to_nat end_ - Z.to_nat start;
                slices.cap := slices.cap s - Z.to_nat start |}) in *.
  assert (Hs' : slices.structs m1 !! b' = Some s').
  { rewrite <- Em, <- Eb. cbn. apply lookup_insert_eq. }
  assert (Hne : b <> b') by (intros ->; congruence).
  assert (Ha1 : slices.arrays m1 !! slices.array s' = Some arr)
    by (rewrite Harr; exact Ha).
  destruct (append_spec m1 s' p arr Hwf1 Ha1)
    as (_ & _ & _ & Hst & _ & _ & _ & Hfit & _); [cbn; lia|cbn; lia|].
  destruct Hfit as (_ & _ & _ & _ & Harr'); [cbn; lia|].
  exists b', m1, (slices.set_data b' (slices.append newcap s' p m1).1
                    (slices.append newcap s' p m1).2).
  split; [exact HSl|]. split; [apply (Write_run m1 b' s' p Hs')|].
  unfold slices.Get, slices.Len. cbn [slices.structs slices.set_data].
  rewrite lookup_insert_ne by done. rewrite Hst, Hs1. cbn [mbind option_bind].
  split; [|reflexivity]. f_equal.
  unfold slices.elems, slices.contents. cbn [slices.arrays slices.set_data].
  cbn [slices.array s'] in Harr'. rewrite Harr', Ha. cbn [default from_option id].
  cbn [slices.offset slices.len s'].
  replace (slices.offset s + Z.to_nat start + (Z.to_nat end_ - Z.to_nat start))%nat
    with (slices.offset s + Z.to_nat end_)%nat by lia.
  replace (slices.offset s + Z.to_nat start
           + (Z.to_nat end_ - Z.to_nat start + length p))%nat
    with (slices.offset s + (Z.to_nat end_ + length p))%nat by lia.
  apply clobber; lia.
Qed.

(** A call on buffer [x] when buffer [y] lies in another array: [x]
    stays out of that array, and [y] and its array are untouched. *)
Lemma run_op_frame (m m' : slices.Mem) (x y : loc) (sx sy : slices.slice)
    (op : slices.buf_op) :
  slices.wf m ->
  slices.structs m !! x = Some sx ->
  slices.structs m !! y = Some sy ->
  x <> y ->
  slices.array sx <> slices.array sy ->
  slices.run_op newcap x op m = Some m' ->
  slices.wf m' /\
  (exists sx', slices.structs m' !! x = Some sx' /\
               slices.array sx' <> slices.array sy) /\
  slices.structs m' !! y = Some sy /\
  slices.arrays m' !! slices.array sy = slices.arrays m !! slices.array sy.
Proof.
  intros Hwf Hx Hy Hne Harr.
  destruct (Hwf x sx Hx) as (ax & Hax & Hbx & Hlx).
  destruct (Hwf y sy Hy) as (ay & Hay & _).
  assert (Hkeep : forall s', slices.array s' = slices.array sx ->
            (slices.offset s' + slices.cap s' <= length ax)%nat ->
            (slices.len s' <= slices.cap s')%nat ->
            slices.wf (slices.set_data x s' m) /\
            (exists sx', slices.structs (slices.set_data x s' m) !! x = Some sx' /\
                         slices.array sx' <> slices.array sy) /\
            slices.structs (slices.set_data x s' m) !! y = Some sy /\
            slices.arrays (slices.set_data x s' m) !! slices.array sy
              = slices.arrays m !! slices.array sy).
  { intros s' Ea Hb' Hl'. split.
    - apply (wf_set_data m x s' ax Hwf); [rewrite Ea; exact Hax|exact Hb'|exact Hl'].
    - split; [exists s'; split; [cbn; apply lookup_insert_eq|congruence]|].
      split; [cbn; rewrite lookup_insert_ne by done; exact Hy|reflexivity]. }
  destruct op as [p|n|]; cbn [slices.run_op].
  - rewrite (Write_run m x sx p Hx). cbn [fmap option_fmap option_map snd].
    intros H. injection H as <-.
    destruct (append_spec m sx p ax Hwf Hax Hbx Hlx)
      as (_ & _ & _ & Hst & Hwfa & (arr' & Harr' & Hb') & Hl' & Hfit & Hgrow).
    split; [apply (wf_set_data _ x _ arr' Hwfa Harr' Hb' Hl')|].
    split.
    + eexists. split; [cbn; apply lookup_insert_eq|].
      destruct (le_lt_dec (slices.len sx + length p) (slices.cap sx)) as [Hle|Hlt].
      * destruct (Hfit Hle) as (Ea & _). rewrite Ea. exact Harr.
      * destruct (Hgrow Hlt) as (Hnone & _). intros E. rewrite E, Hay in Hnone.
        discriminate.
    + split; [cbn; rewrite lookup_insert_ne by done; rewrite Hst; exact Hy|].
      cbn [slices.arrays slices.set_data].
      apply append_frame; [congruence|eauto].
  - unfold slices.Truncate. rewrite Hx. cbn [mbind option_bind].
    destruct (n <? Z.of_nat (slices.len sx)) eqn:Hlt.
    + unfold slices.reslice.
      destruct ((0 <=? 0) && (0 <=? n) && (n <=? Z.of_nat (slices.cap sx))) eqn:Hin;
        [|discriminate].
      cbn [mbind option_bind]. intros H. injection H as <-.
      apply andb_prop in Hin as [Hin Hhi]. apply andb_prop in Hin as [_ Hlo].
      apply Z.leb_le in Hlo, Hhi.
      apply Hkeep; cbn; [reflexivity|lia|lia].
    + intros H. injection H as <-. split; [exact Hwf|].
      split; [exists sx; auto|]. auto.
  - rewrite (Reset_run m x sx Hx). intros H. injection H as <-.
    apply Hkeep; cbn; [reflexivity|lia|lia].
Qed.

Lemma run_op_total (m : slices.Mem) (x : loc) (sx : slices.slice)
    (op : slices.buf_op) :
  slices.wf m ->
  slices.structs m !! x = Some sx ->
  match op with slices.BTruncate n => 0 <= n | _ => True end ->
  is_Some (slices.run_op newcap x op m).
Proof.
  intros Hwf Hx Hop. destruct (Hwf x sx Hx) as (ax & Hax & Hbx & Hlx).
  destruct op as [p|n|]; cbn [slices.run_op].
  - rewrite (Write_run m x sx p Hx). cbn. eauto.
  - unfold slices.Truncate. rewrite Hx. cbn [mbind option_bind].
    destruct (Z.ltb_spec n (Z.of_nat (slices.len sx))); [|eauto].
    rewrite reslice_ok by lia. cbn. eauto.
  - rewrite (Reset_run m x sx Hx). eauto.
Qed.

Lemma run_ops_frame (ops : list slices.buf_op) (m : slices.Mem) (x y : loc)
    (sx sy : slices.slice) :
  slices.wf m ->
  slices.structs m !! x = Some sx ->
  slices.structs m !! y = Some sy ->
  x <> y ->
  slices.array sx <> slices.array sy ->
  (slices.valid_ops ops -> is_Some (slices.run_ops newcap x ops m)) /\
  (forall m', slices.run_ops newcap x ops m = Some m' ->
     slices.Get y m' = slices.Get y m).
Proof.
  revert m sx. induction ops as [|op rest IH]; intros m sx Hwf Hx Hy Hne Harr.
  - split; [cbn; eauto|]. intros m' H. injection H as <-. reflexivity.
  - cbn [slices.run_ops]. split.
    + intros Hops. inversion Hops as [|? ? Hop Hrest]; subst.
      destruct (run_op_total m x sx op Hwf Hx Hop) as [m1 Hrun]. rewrite Hrun.
      cbn [mbind option_bind].
      destruct (run_op_frame m m1 x y sx sy op Hwf Hx Hy Hne Harr Hrun)
        as (Hwf1 & (sx1 & Hx1 & Harr1) & Hy1 & _).
      apply (IH m1 sx1 Hwf1 Hx1 Hy1 Hne Harr1), Hrest.
    + intros m'. destruct (slices.run_op newcap x op m) as [m1|] eqn:Hrun;
        [|discriminate].
      cbn [mbind option_bind]. intros Hrest.
      destruct (run_op_frame m m1 x y sx sy op Hwf Hx Hy Hne Harr Hrun)
        as (Hwf1 & (sx1 & Hx1 & Harr1) & Hy1 & Hay).
      rewrite (proj2 (IH m1 sx1 Hwf1 Hx1 Hy1 Hne Harr1) m' Hrest).
      unfold slices.Get. rewrite Hy1, Hy. cbn [mbind option_bind]. f_equal.
      apply elems_same_array, Hay.
Qed.

(** X24: [Clone] returns a new buffer whose bytes are the receiver's, in
    an array of its own: the array is newly allocated, it is not the
    receiver's, and its capacity is exactly the length.  Nothing else
    changes.  Afterwards every run of [Write], [Truncate] and [Reset]
    on the receiver leaves the clone's bytes as they were, and every
    such run on the clone leaves the receiver's; the runs return unless
    they truncate to a negative length. *)
Theorem Clone_is_independent (m : slices.Mem) (b : loc) (s : slices.slice) :
  slices.wf m ->
  slices.structs m !! b = Some s ->
  exists b' clone m1,
    slices.Clone b m = Some (b', m1) /\
    (b' <> b /\ slices.structs m !! b' = None) /\
    slices.structs m1 !! b' = Some clone /\
    (slices.arrays m !! slices.array clone = None /\
     slices.array clone <> slices.array s) /\
    (slices.offset clone = 0%nat /\ slices.len clone = slices.len s /\
     slices.cap clone = slices.len s) /\
    ((forall a, a <> slices.array clone ->
        slices.arrays m1 !! a = slices.arrays m !! a) /\
     (forall x, x <> b' -> slices.structs m1 !! x = slices.structs m !! x)) /\
    slices.Get b' m1 = Some (slices.elems m s) /\
    slices.Get b m1 = Some (slices.elems m s) /\
    slices.Cap b' m1 = Some (Z.of_nat (slices.len s)) /\
    slices.wf m1 /\
    (forall ops, slices.valid_ops ops ->
       is_Some (slices.run_ops newcap b ops m1) /\
       is_Some (slices.run_ops newcap b' ops m1)) /\
    (forall ops m2, slices.run_ops newcap b ops m1 = Some m2 ->
       slices.Get b' m2 = Some (slices.elems m s)) /\
    (forall ops m2, slices.run_ops newcap b' ops m1 = Some m2 ->
       slices.Get b m2 = Some (slices.elems m s)).
Proof.
  intros Hwf Hs. destruct (Hwf b s Hs) as (arr & Ha & Hb & Hl).
  set (a := alloc (slices.arrays m)).
  set (b' := alloc (slices.structs m)).
  set (clone := {| slices.array := a; slices.offset := 0;
                   slices.len := slices.len s; slices.cap := slices.len s |}).
  assert (Hfa : slices.arrays m !! a = None) by apply alloc_fresh.
  assert (Hfb : slices.structs m !! b' = None) by apply alloc_fresh.
  assert (Hna : a <> slices.array s) by congruence.
  assert (Hnb : b' <> b) by congruence.
  assert (Hlen : length (slices.elems m s) = slices.len s)
    by (apply (elems_length m s arr Ha); lia).
  set (m1 := slices.set_data b' clone
               {| slices.arrays := <[a := slices.elems m s]> (slices.arrays m);
                  slices.structs := slices.structs m |}).
  assert (HClone : slices.Clone b m = Some (b', m1)).
  { unfold slices.Clone. rewrite Hs. cbn [mbind option_bind].
    unfold slices.make, slices.copy. cbn [slices.len slices.structs slices.array
      slices.offset slices.arrays]. fold a. fold b'.
    unfold m1, slices.set_data. cbn [slices.arrays slices.structs].
    f_equal. f_equal. f_equal. rewrite insert_insert_eq. f_equal.
    rewrite Nat.min_id.
    unfold slices.contents. cbn [slices.arrays].
    rewrite lookup_insert_eq. cbn [default from_option id].
    rewrite take_0, Nat.add_0_l.
    rewrite drop_ge by (rewrite length_replicate; lia).
    rewrite app_nil_r. cbn [app].
    assert (He : slices.elems
                   {| slices.arrays := <[a := replicate (slices.len s) x00]>
                                         (slices.arrays m);
                      slices.structs := slices.structs m |} s = slices.elems m s).
    { apply elems_same_array. cbn. rewrite lookup_insert_ne by done. reflexivity. }
    rewrite He. apply take_ge. lia. }
  assert (Hc1 : slices.structs m1 !! b' = Some clone)
    by (cbn; apply lookup_insert_eq).
  assert (Hs1 : slices.structs m1 !! b = Some s)
    by (cbn; rewrite lookup_insert_ne by done; exact Hs).
  assert (Hea : slices.elems m1 clone = slices.elems m s).
  { unfold slices.elems at 1, slices.contents. cbn.
    rewrite lookup_insert_eq. cbn. rewrite drop_0. apply take_ge. lia. }
  assert (Hes : slices.elems m1 s = slices.elems m s).
  { apply elems_same_array. cbn. rewrite lookup_insert_ne by done. reflexivity. }
  assert (Hwf1 : slices.wf m1).
  { apply (wf_set_data _ b' clone (slices.elems m s)).
    - intros b0 s0 Hs0. cbn in Hs0 |- *.
      destruct (Hwf b0 s0 Hs0) as (arr0 & Ha0 & Hb0 & Hl0).
      exists arr0. rewrite lookup_insert_ne; [auto|]. congruence.
    - cbn. apply lookup_insert_eq.
    - cbn. lia.
    - cbn. lia. }
  assert (HGc : slices.Get b' m1 = Some (slices.elems m s)).
  { unfold slices.Get. rewrite Hc1. cbn [mbind option_bind]. rewrite Hea. reflexivity. }
  assert (HGs : slices.Get b m1 = Some (slices.elems m s)).
  { unfold slices.Get. rewrite Hs1. cbn [mbind option_bind]. rewrite Hes. reflexivity. }
  exists b', clone, m1. split; [exact HClone|]. split; [auto|].
  split; [exact Hc1|]. split; [auto|]. split; [auto|].
  split.
  { split.
    - intros a0 Ha0. cbn. rewrite lookup_insert_ne; [reflexivity|].
      intros E. apply Ha0. rewrite <- E. reflexivity.
    - intros x Hx. cbn. rewrite lookup_insert_ne; [reflexivity|]. congruence. }
  split; [exact HGc|]. split; [exact HGs|].
  split; [unfold slices.Cap; rewrite Hc1; reflexivity|].
  split; [exact Hwf1|].
  assert (Hab : slices.array s <> slices.array clone) by (cbn; congruence).
  assert (Hba : slices.array clone <> slices.array s) by (cbn; congruence).
  split.
  { intros ops Hops. split.
    - apply (proj1 (run_ops_frame ops m1 b b' s clone Hwf1 Hs1 Hc1
                      (not_eq_sym Hnb) Hab)), Hops.
    - apply (proj1 (run_ops_frame ops m1 b' b clone s Hwf1 Hc1 Hs1 Hnb Hba)), Hops. }
  split.
  - intros ops m2 Hrun.
    rewrite (proj2 (run_ops_frame ops m1 b b' s clone Hwf1 Hs1 Hc1
                      (not_eq_sym Hnb) Hab) m2 Hrun).
    exact HGc.
  - intros ops m2 Hrun.
    rewrite (proj2 (run_ops_frame ops m1 b' b clone s Hwf1 Hc1 Hs1 Hnb Hba) m2 Hrun).
    exact HGs.
Qed.

(** X25: [Reset] does not erase: a slice of the first [n] bytes taken
    after it, for [n] up to the length before it, reads the bytes the
    buffer held before the [Reset]. *)
Theorem Reset_keeps_bytes (m : slices.Mem) (b : loc) (s : slices.slice) (n : Z) :
  slices.wf m ->
  slices.structs m !! b = Some s ->
  0 <= n -> n <= Z.of_nat (slices.len s) ->
  exists m1 b' m2,
    slices.Reset b m = Some m1 /\
    slices.Get b m1 = Some [] /\
    slices.Slice b 0 n m1 = Some (b', m2) /\
    slices.Get b' m2 = Some (take (Z.to_nat n) (slices.elems m s)).
Proof.
  intros Hwf Hs H0 H1. destruct (Hwf b s Hs) as (arr & Ha & Hb & Hl).
  set (s0 := {| slices.array := slices.array s; slices.offset := slices.offset s;
                slices.len := 0; slices.cap := slices.cap s |}).
  assert (Hwf1 : slices.wf (slices.set_data b s0 m)).
  { apply (wf_set_data m b s0 arr Hwf Ha Hb). cbn. lia. }
  assert (Hs0 : slices.structs (slices.set_data b s0 m) !! b = Some s0)
    by (cbn; apply lookup_insert_eq).
  destruct (Slice_is_a_view_aux (slices.set_data b s0 m) b s0 0 n Hwf1 Hs0) as [Hin _].
  destruct Hin as (b' & m2 & HSl & _ & _ & _ & HG & _); [cbn; lia|].
  exists (slices.set_data b s0 m), b', m2.
  split; [apply (Reset_run m b s Hs)|].
  split; [rewrite Get_set_data; reflexivity|].
  split; [exact HSl|]. rewrite HG. f_equal.
  change (Z.to_nat 0) with 0%nat. rewrite Nat.sub_0_r, drop_0.
  unfold slices.window, slices.elems, slices.contents. cbn.
  rewrite !take_take. f_equal; lia.
Qed.

(** X26: the list model of a buffer is what its bytes do over a
    backing array: on a buffer whose bytes are [data], [Write], [Reset]
    and [Truncate] succeed or panic as they do on the list [data], with
    the same result, and leave the bytes the list operation leaves;
    [Len] is the length of the list. *)
Theorem list_model_agrees (m : slices.Mem) (b : loc) (s : slices.slice)
    (p : list byte) (n : Z) :
  slices.wf m ->
  slices.structs m !! b = Some s ->
  let bi := {| buffer.data := slices.elems m s |} in
  slices.Get b m = Some (buffer.Get bi) /\
  slices.Len b m = Some (buffer.Len bi) /\
  (exists r bi' m',
     buffer.Write p bi = Some (r, bi') /\
     slices.Write newcap b p m = Some (r, m') /\
     slices.Get b m' = Some (buffer.data bi')) /\
  (exists bi' m',
     buffer.Reset bi = Some (tt, bi') /\
     slices.Reset b m = Some m' /\
     slices.Get b m' = Some (buffer.data bi')) /\
  match buffer.Truncate n bi with
  | Some (_, bi') =>
      exists m', slices.Truncate b n m = Some m' /\
                 slices.Get b m' = Some (buffer.data bi')
  | None => slices.Truncate b n m = None
  end.
Proof.
  intros Hwf Hs bi. destruct (Hwf b s Hs) as (arr & Ha & Hb & Hl).
  assert (Hlen : length (slices.elems m s) = slices.len s)
    by (apply (elems_length m s arr Ha); lia).
  split; [unfold slices.Get; rewrite Hs; reflexivity|].
  split. { unfold slices.Len, buffer.Len. rewrite Hs. cbn. rewrite Hlen. reflexivity. }
  split.
  { destruct (Write_appends_aux m b s p Hwf Hs) as (m' & s' & HW & _ & HG & _).
    eexists _, _, m'. split; [reflexivity|]. split; [exact HW|exact HG]. }
  split.
  { eexists _, _. split; [apply Reset_empties|].
    split; [apply (Reset_run m b s Hs)|]. rewrite Get_set_data. reflexivity. }
  unfold buffer.Truncate, slices.Truncate. rewrite Hs. cbn [mbind option_bind].
  cbn [buffer.data bi]. rewrite Hlen.
  destruct (Z.ltb_spec n (Z.of_nat (slices.len s))) as [Hlt|Hge].
  - destruct (Z.lt_ge_cases n 0) as [Hneg|Hpos].
    + rewrite slice_to_negative by exact Hneg.
      rewrite reslice_out by lia. reflexivity.
    + rewrite slice_to_in_range by lia.
      rewrite reslice_ok by lia. cbn [mbind option_bind].
      eexists. split; [reflexivity|]. rewrite Get_set_data. f_equal.
      unfold slices.elems. cbn. change (Z.to_nat 0) with 0%nat.
      rewrite Nat.add_0_r, Nat.sub_0_r, take_take. f_equal. lia.
  - exists m. split; [reflexivity|]. unfold slices.Get. rewrite Hs. reflexivity.
Qed.

End slices_properties.

Lemma wf_mem_abc : slices.wf slices.mem_abc.
Proof.
  intros b s Hs. cbn in Hs. apply lookup_singleton_Some in Hs as [<- <-].
  eexists. split; [apply lookup_singleton_eq|]. cbn. lia.
Qed.

Lemma Write_appends_witness :
  exists m',
    slices.Write slices.double 1%positive (bytes_of "defghi") slices.mem_abc
      = Some (6, m') /\
    slices.Get 1%positive m' = Some (bytes_of "abcdefghi").
Proof.
  destruct (Write_appends slices.double slices.mem_abc 1%positive
              {| slices.array := 1%positive; slices.offset := 0;
                 slices.len := 3; slices.cap := 8 |}
              (bytes_of "defghi") wf_mem_abc)
    as (m' & s' & HW & _ & HG & _).
  - vm_compute. reflexivity.
  - exists m'. split; [exact HW|exact HG].
Defined.

Lemma Reset_retains_capacity_witness :
  exists m1,
    slices.Reset 1%positive slices.mem_abc = Some m1 /\
    slices.Len 1%positive m1 = Some 0 /\
    slices.Cap 1%positive m1 = Some 8.
Proof.
  destruct (Reset_retains_capacity slices.double slices.mem_abc 1%positive
              {| slices.array := 1%positive; slices.offset := 0;
                 slices.len := 3; slices.cap := 8 |} [] wf_mem_abc)
    as (m1 & HR & _ & HL & HC & _).
  - vm_compute. reflexivity.
  - exists m1. auto.
Defined.

Lemma wf_empty : slices.wf {| slices.arrays := ∅; slices.structs := ∅ |}.
Proof. intros b s Hs. cbn in Hs. rewrite lookup_empty in Hs. discriminate. Qed.

Lemma NewBuffer_capacity_witness :
  slices.Cap (slices.NewBuffer {| slices.arrays := ∅; slices.structs := ∅ |}).1
    (slices.NewBuffer {| slices.arrays := ∅; slices.structs := ∅ |}).2
  = Some 1024.
Proof.
  apply (NewBuffer_capacity slices.double
           {| slices.arrays := ∅; slices.structs := ∅ |} [] wf_empty).
Defined.

Lemma Slice_is_a_view_witness :
  exists b' m',
    slices.Slice 1%positive 1 3 slices.mem_abc = Some (b', m') /\
    slices.Get b' m' = Some (bytes_of "bc") /\
    slices.Slice 1%positive 2 9 slices.mem_abc = None.
Proof.
  destruct (Slice_is_a_view slices.mem_abc 1%positive
              {| slices.array := 1%positive; slices.offset := 0;
                 slices.len := 3; slices.cap := 8 |} 1 3 wf_mem_abc)
    as [Hin _]; [vm_compute; reflexivity|].
  destruct Hin as (b' & m' & HSl & _ & _ & _ & _ & HG & _); [cbn; lia|].
  exists b', m'. split; [exact HSl|]. split; [apply HG; cbn; lia|].
  apply (Slice_is_a_view slices.mem_abc 1%positive
           {| slices.array := 1%positive; slices.offset := 0;
              slices.len := 3; slices.cap := 8 |} 2 9 wf_mem_abc).
  - vm_compute. reflexivity.
  - cbn. lia.
Defined.

Lemma parent_Write_keeps_slice_witness :
  exists b' m1 m2,
    slices.Slice 1%positive 0 2 slices.mem_abc = Some (b', m1) /\
    slices.Write slices.double 1%positive (bytes_of "XYZ") m1 = Some (3, m2) /\
    slices.Get b' m2 = slices.Get b' m1.
Proof.
  destruct (parent_Write_keeps_slice slices.double slices.mem_abc 1%positive
              {| slices.array := 1%positive; slices.offset := 0;
                 slices.len := 3; slices.cap := 8 |} 0 2 (bytes_of "XYZ")
              wf_mem_abc)
    as (b' & m1 & m2 & HSl & HW & _ & HG & _).
  - vm_compute. reflexivity.
  - lia.
  - lia.
  - cbn. lia.
  - exists b', m1, m2. auto.
Defined.

Lemma slice_Write_overwrites_parent_witness :
  exists b' m1 m2,
    slices.Slice 1%positive 0 1 slices.mem_abc = Some (b', m1) /\
    slices.Write slices.double b' (bytes_of "X") m1 = Some (1, m2) /\
    slices.Get 1%positive m2 = Some (bytes_of "aXc").
Proof.
  destruct (slice_Write_overwrites_parent slices.double slices.mem_abc 1%positive
              {| slices.array := 1%positive; slices.offset := 0;
                 slices.len := 3; slices.cap := 8 |} 0 1 (bytes_of "X")
              wf_mem_abc)
    as (b' & m1 & m2 & HSl & HW & HG & _).
  - vm_compute. reflexivity.
  - lia.
  - lia.
  - cbn. lia.
  - exists b', m1, m2. split; [exact HSl|]. split; [exact HW|]. rewrite HG.
    vm_compute. reflexivity.
Defined.

Lemma Clone_is_independent_witness :
  exists b' m1 m2,
    slices.Clone 1%positive slices.mem_abc = Some (b', m1) /\
    slices.run_ops slices.double 1%positive
      [slices.BTruncate 0; slices.BWrite (bytes_of "d")] m1 = Some m2 /\
    slices.Get b' m2 = Some (bytes_of "abc").
Proof.
  destruct (Clone_is_independent slices.double slices.mem_abc 1%positive
              {| slices.array := 1%positive; slices.offset := 0;
                 slices.len := 3; slices.cap := 8 |} wf_mem_abc)
    as (b' & clone & m1 & HC & _ & _ & _ & _ & _ & _ & _ & _ & _ & Htot & Hrecv & _).
  - vm_compute. reflexivity.
  - destruct (Htot [slices.BTruncate 0; slices.BWrite (bytes_of "d")])
      as [[m2 Hrun] _].
    { repeat constructor. lia. }
    exists b', m1, m2. split; [exact HC|]. split; [exact Hrun|].
    rewrite (Hrecv _ _ Hrun). vm_compute. reflexivity.
Defined.

Lemma Reset_keeps_bytes_witness :
  exists m1 b' m2,
    slices.Reset 1%positive slices.mem_abc = Some m1 /\
    slices.Get 1%positive m1 = Some [] /\
    slices.Slice 1%positive 0 3 m1 = Some (b', m2) /\
    slices.Get b' m2 = Some (bytes_of "abc").
Proof.
  destruct (Reset_keeps_bytes slices.mem_abc 1%positive
              {| slices.array := 1%positive; slices.offset := 0;
                 slices.len := 3; slices.cap := 8 |} 3 wf_mem_abc)
    as (m1 & b' & m2 & HR & HG1 & HSl & HG).
  - vm_compute. reflexivity.
  - lia.
  - cbn. lia.
  - exists m1, b', m2. split; [exact HR|]. split; [exact HG1|].
    split; [exact HSl|]. rewrite HG. vm_compute. reflexivity.
Defined.

Lemma list_model_agrees_witness :
  slices.Len 1%positive slices.mem_abc = Some 3 /\
  slices.Truncate 1%positive (-1) slices.mem_abc = None.
Proof.
  destruct (list_model_agrees slices.double slices.mem_abc 1%positive
              {| slices.array := 1%positive; slices.offset := 0;
                 slices.len := 3; slices.cap := 8 |} [] (-1) wf_mem_abc)
    as (_ & HL & _ & _ & HT).
  - vm_compute. reflexivity.
  - split; [exact HL|exact HT].
Defined.
